(** * Chat server: room registry, persistence and broadcast

    A shallow embedding of the Node.js chat server (the socket.io
    connection handler, [loadSavedData], [saveRooms] and [saveMessages])
    together with the parts of its environment that the handlers act on:
    the file system under [__dirname], and socket.io's table of connected
    sockets and their rooms.

    Client payloads are typed: a room name is a string, and a
    [sendMessage] payload is an object each field of which is a string or
    absent, or no object at all.  File contents are
    the JSON arrays the server writes; [JSON.stringify] followed by
    [JSON.parse] gives such an array back unchanged, so a file is
    modelled by the array it holds.  Paths are POSIX paths. *)

From Stdlib Require Import Ascii String.
From stdpp Require Import gmap strings list fin_maps.

Local Open Scope string_scope.
Local Open Scope list_scope.

(** ** JavaScript values held by the server

    Every value the server stores or writes to disk is either a string
    (a room name, a socket id) or a message object [{user, text, time}]
    with three string fields. *)

Record message_data := MessageData {
  user : string;
  text : string;
  time : string
}.

Inductive jsval :=
| JStr (s : string)
| JObj (m : message_data).

#[global] Instance message_data_eq_dec : EqDecision message_data.
Proof. solve_decision. Defined.

#[global] Instance jsval_eq_dec : EqDecision jsval.
Proof. solve_decision. Defined.

(** Template-literal conversion [`${v}`]. *)
Definition toString (v : jsval) : string :=
  match v with
  | JStr s => s
  | JObj _ => "[object Object]"
  end.

(** ** The JavaScript [Map]

    A [Map] keeps its entries in insertion order; [set] on a key that is
    present replaces the value where it stands.  Keys are compared with
    SameValueZero: strings by content, objects by reference.  The only
    objects that ever become keys are produced by [JSON.parse] inside
    [loadSavedData], one fresh object per array element, so an object key
    is equal to no key that is looked up later. *)

Definition same_key (a b : jsval) : bool :=
  match a, b with
  | JStr x, JStr y => bool_decide (x = y)
  | _, _ => false
  end.
Arguments same_key : simpl never.

Module JsMap.
Section ops.
Context {V : Type}.

Fixpoint get (k : jsval) (m : list (jsval * V)) : option V :=
match m with
| [] => None
| (k', v) :: m' => if same_key k k' then Some v else get k m'
end.

Definition has (k : jsval) (m : list (jsval * V)) : bool :=
match get k m with Some _ => true | None => false end.

(** In-place change of the value stored under [k] (the first and only
  entry with that key). *)
Fixpoint alter (f : V → V) (k : jsval) (m : list (jsval * V))
: list (jsval * V) :=
match m with
| [] => []
| (k', v) :: m' =>
    if same_key k k' then (k', f v) :: m' else (k', v) :: alter f k m'
end.

Definition set (k : jsval) (v : V) (m : list (jsval * V))
: list (jsval * V) :=
if has k m then alter (λ _, v) k m else m ++ [(k, v)].

Definition keys (m : list (jsval * V)) : list jsval := m.*1.
End ops.
End JsMap.

(** ** Paths and the file system

    A path is the list of its segments below the root.  [path_join]
    follows Node's POSIX [path.join] on an absolute directory: the joined
    text is cut at every slash, empty and ["."] segments are dropped and
    [".."] removes the segment before it. *)

Abbreviation path := (list string).

Fixpoint split_slash (s : string) : list string :=
  match s with
  | EmptyString => [EmptyString]
  | String c s' =>
      if bool_decide (c = "/"%char) then EmptyString :: split_slash s'
      else match split_slash s' with
           | seg :: segs => String c seg :: segs
           | [] => [String c EmptyString]
           end
  end.

Definition norm_segment (acc : path) (seg : string) : path :=
  if bool_decide (seg = "") || bool_decide (seg = ".") then acc
  else if bool_decide (seg = "..") then removelast acc
  else acc ++ [seg].

Definition path_join (dir : path) (rel : string) : path :=
  fold_left norm_segment (split_slash rel) dir.

Definition parent (p : path) : path := removelast p.

Fixpoint has_slash (s : string) : bool :=
  match s with
  | EmptyString => false
  | String c s' => bool_decide (c = "/"%char) || has_slash s'
  end.

(** A Map key that names one file directly inside a directory it is
    joined to: a string without a slash. *)
Definition path_safe (k : jsval) : bool :=
  match k with
  | JStr s => negb (has_slash s)
  | JObj _ => false
  end.

(** The data files hold JSON arrays; a file's content is the array it
    parses to.  [dirs] are the directories that exist. *)
Record FS := MkFS {
  dirs : gset (list string);
  files : gmap (list string) (list jsval)
}.

Definition existsSync (fs : FS) (p : path) : bool :=
  bool_decide (p ∈ dirs fs) || bool_decide (is_Some (files fs !! p)).

(** [None] stands for a thrown error: a directory or no file at [p]. *)
Definition readFileSync (fs : FS) (p : path) : option (list jsval) :=
  if bool_decide (p ∈ dirs fs) then None else files fs !! p.

(** The longest file name the file system takes, in bytes. *)
Definition NAME_MAX : nat := 255.

(** A write throws unless the parent directory exists, [p] itself is
    not a directory and the file name is no longer than [NAME_MAX];
    nothing creates missing directories.  A disk that refuses a write for
    another reason (permissions, no space left) is not described:
    persistence is only ever stated for a path that can be written. *)
Definition writable (fs : FS) (p : path) : bool :=
  bool_decide (parent p ∈ dirs fs) && negb (bool_decide (p ∈ dirs fs))
  && bool_decide (String.length (default "" (last p)) ≤ NAME_MAX)%nat.

Definition writeFileSync (fs : FS) (p : path) (data : list jsval)
  : option FS :=
  if writable fs p
  then Some {| dirs := dirs fs; files := <[p := data]> (files fs) |}
  else None.

(** [mkdirSync] throws when something is already at [p] or when the
    parent directory is missing. *)
Definition mkdirSync (fs : FS) (p : path) : option FS :=
  if existsSync fs p then None
  else if bool_decide (parent p ∈ dirs fs)
       then Some {| dirs := dirs fs ∪ {[p]}; files := files fs |}
       else None.

(** ** Events sent to clients

    An emission is one [emit] call, resolved at the moment of the call to
    the set of sockets it reaches. *)

Inductive event :=
| RoomList (names : list jsval)
| RoomCreated (roomName : string)
| RoomJoined (roomName : string)
| PreviousMessages (messages : list jsval)
| Error (msg : string)
| Message (messageData : message_data)
| UserJoined (id : string)
| UserLeft (id : string).

#[global] Instance event_eq_dec : EqDecision event.
Proof. solve_decision. Defined.

Record emission := Emit { dest : gset string; ev : event }.

(** The events socket [id] receives from a list of emissions, in order. *)
Definition received (id : string) (out : list emission) : list event :=
  ev <$> filter (λ e, id ∈ dest e) out.

Definition is_message (e : event) : bool :=
  match e with Message _ => true | _ => false end.
Definition is_userJoined (e : event) : bool :=
  match e with UserJoined _ => true | _ => false end.
Definition is_userLeft (e : event) : bool :=
  match e with UserLeft _ => true | _ => false end.

(** ** Server state

    [rooms] and [roomMessages] are the two module-level Maps; [disk] is
    the file system; [sockets] and [adapter] are socket.io's own state:
    the connected socket ids and, per room name, the sockets joined to
    it. *)

Record Server := MkServer {
  rooms : list (jsval * gset string);
  roomMessages : list (jsval * list jsval);
  disk : FS;
  sockets : gset string;
  adapter : gmap string (gset string)
}.

Definition with_rooms (r : list (jsval * gset string)) (st : Server) :=
  MkServer r (roomMessages st) (disk st) (sockets st) (adapter st).
Definition with_roomMessages (m : list (jsval * list jsval)) (st : Server) :=
  MkServer (rooms st) m (disk st) (sockets st) (adapter st).
Definition with_disk (fs : FS) (st : Server) :=
  MkServer (rooms st) (roomMessages st) fs (sockets st) (adapter st).
Definition with_sockets (s : gset string) (st : Server) :=
  MkServer (rooms st) (roomMessages st) (disk st) s (adapter st).
Definition with_adapter (a : gmap string (gset string)) (st : Server) :=
  MkServer (rooms st) (roomMessages st) (disk st) (sockets st) a.

(** *** socket.io primitives *)

Definition sockets_in (a : gmap string (gset string)) (room : string)
  : gset string :=
  default ∅ (a !! room).

(** [socket.join(room)] *)
Definition socket_join (id room : string) (a : gmap string (gset string))
  : gmap string (gset string) :=
  <[room := sockets_in a room ∪ {[id]}]> a.

(** What socket.io does to a closing socket before the [disconnect]
    handler runs: it leaves every room. *)
Definition leave_all (id : string) (a : gmap string (gset string))
  : gmap string (gset string) :=
  (λ s, s ∖ {[id]}) <$> a.

(** [socket.emit], [io.emit] and [io.to(room).emit]; the last two reach
    the sender as well when it is connected, respectively in the room. *)
Definition socket_emit (id : string) (e : event) : emission :=
  Emit {[id]} e.
Definition io_emit (st : Server) (e : event) : emission :=
  Emit (sockets st) e.
Definition io_to (st : Server) (room : jsval) (e : event) : emission :=
  match room with
  | JStr r => Emit (sockets_in (adapter st) r) e
  | JObj _ => Emit ∅ e
  end.

(** Truthiness of an optional string field: [undefined] and [""] are
    falsy. *)
Definition falsy (v : option string) : bool :=
  match v with
  | None => true
  | Some s => bool_decide (s = "")
  end.

(** The payload of [sendMessage]. *)
Record message_payload := Payload {
  room : option string;
  message : option string;
  username : option string
}.

(** What a client, or the transport, asks of the server, and the server
    lives through: a [sendMessage] carries a payload object (without one
    the process ends, see [on_sendMessage]).  [now] is the text
    [new Date().toLocaleTimeString()] yields when the handler runs. *)
Inductive request :=
| Connect
| CreateRoom (roomName : string)
| JoinRoom (roomName : string)
| SendMessage (data : message_payload) (now : string)
| Disconnect.

(** ** The client component ([Chat.jsx])

    The state of the [Chat] component (its [useState] cells and the two
    [localStorage] entries it keeps), its click handlers and its socket
    listeners.  A handler returns the state after the updates it
    schedules and the events it emits to the server, in order.  Text
    fields hold strings; [joinRoom] is applied to a string. *)

Module Chat.

Record state := State {
  username : string;
  tempUsername : string;
  room : string;
  message : string;
  messages : list jsval;
  rooms : list jsval;
  currentRoom : string;
  error : string;
  localStorage : gmap string string
}.

(** What the component emits on its socket. *)
Inductive emitted :=
| EmitCreateRoom (room : string)
| EmitJoinRoom (roomName : string)
| EmitSendMessage (data : message_payload).

Definition truthy (s : string) : bool := negb (bool_decide (s = "")).

(** The initial state: [localStorage.getItem(...) || ''] for the user
    name and the current room, empty cells otherwise. *)
Definition init (storage : gmap string string) : state :=
  {| username := default "" (storage !! "username");
     tempUsername := ""; room := ""; message := "";
     messages := []; rooms := [];
     currentRoom := default "" (storage !! "currentRoom");
     error := "";
     localStorage := storage |}.

Definition createRoom (c : state) : state * list emitted :=
  if truthy (room c) && truthy (username c) then
    ({| username := username c; tempUsername := tempUsername c;
        room := room c; message := message c;
        messages := messages c; rooms := rooms c;
        currentRoom := room c;
        error := "";
        localStorage := <["currentRoom" := room c]> (localStorage c) |},
     [EmitCreateRoom (room c)])
  else (c, []).

Definition onJoinChat (c : state) : state * list emitted :=
  if truthy (tempUsername c) then
    ({| username := tempUsername c; tempUsername := tempUsername c;
        room := room c; message := message c;
        messages := messages c; rooms := rooms c;
        currentRoom := currentRoom c;
        error := error c;
        localStorage := <["username" := tempUsername c]> (localStorage c) |},
     [])
  else (c, []).

Definition joinRoom (roomName : string) (c : state) : state * list emitted :=
  if truthy (username c) then
    ({| username := username c; tempUsername := tempUsername c;
        room := room c; message := message c;
        messages := messages c; rooms := rooms c;
        currentRoom := roomName;
        error := "";
        localStorage := <["currentRoom" := roomName]> (localStorage c) |},
     [EmitJoinRoom roomName])
  else (c, []).

Definition sendMessage (c : state) : state * list emitted :=
  if truthy (message c) && truthy (currentRoom c) && truthy (username c) then
    let messageData :=
      Payload (Some (currentRoom c)) (Some (message c)) (Some (username c)) in
    ({| username := username c; tempUsername := tempUsername c;
        room := room c; message := "";
        messages := messages c; rooms := rooms c;
        currentRoom := currentRoom c;
        error := error c;
        localStorage := localStorage c |},
     [EmitSendMessage messageData])
  else (c, []).

(** The socket listeners; events without a listener ([roomCreated],
    [roomJoined], [userJoined], [userLeft]) leave the state alone. *)
Definition on (e : event) (c : state) : state :=
  match e with
  | Message m =>
      {| username := username c; tempUsername := tempUsername c;
         room := room c; message := message c;
         messages := messages c ++ [JObj m]; rooms := rooms c;
         currentRoom := currentRoom c; error := error c;
         localStorage := localStorage c |}
  | PreviousMessages previousMessages =>
      {| username := username c; tempUsername := tempUsername c;
         room := room c; message := message c;
         messages := previousMessages; rooms := rooms c;
         currentRoom := currentRoom c; error := error c;
         localStorage := localStorage c |}
  | RoomList roomList =>
      {| username := username c; tempUsername := tempUsername c;
         room := room c; message := message c;
         messages := messages c; rooms := roomList;
         currentRoom := currentRoom c; error := error c;
         localStorage := localStorage c |}
  | Error errorMsg =>
      {| username := username c; tempUsername := tempUsername c;
         room := room c; message := message c;
         messages := messages c; rooms := rooms c;
         currentRoom := currentRoom c; error := errorMsg;
         localStorage := localStorage c |}
  | _ => c
  end.

(** The events a socket receives, handled in order. *)
Definition deliver (events : list event) (c : state) : state :=
  fold_left (λ c e, on e c) events c.

(** The effect that depends on [currentRoom]: whenever it runs with a
    current room, it asks the server to join that room.  It runs when the
    component is mounted, and again after a render in which
    [currentRoom] has changed. *)
Definition effect (c : state) : list emitted :=
  if truthy (currentRoom c) then [EmitJoinRoom (currentRoom c)] else [].

Definition rendered (before after : state) : list emitted :=
  if bool_decide (currentRoom before = currentRoom after) then []
  else effect after.

(** A click: the handler, then the render it causes. *)
Definition click (handler : state → state * list emitted) (c : state)
  : state * list emitted :=
  let '(c', out) := handler c in (c', out ++ rendered c c').

End Chat.

(** The request the server sees for an emitted event; [now] is the
    server's clock text when a message arrives. *)
Definition to_request (now : string) (e : Chat.emitted) : request :=
  match e with
  | Chat.EmitCreateRoom r => CreateRoom r
  | Chat.EmitJoinRoom r => JoinRoom r
  | Chat.EmitSendMessage data => SendMessage data now
  end.


(** The installation directory used in the worked examples. *)
Definition sample_dirname : path := ["srv"; "chat-app"].

Section server.
(** The directory of the server script. *)
Variable dirname : path.

Definition STORAGE_DIR : path := path_join dirname "storage".
Definition ROOMS_FILE : path := path_join STORAGE_DIR "rooms.json".
Definition MESSAGES_DIR : path := path_join STORAGE_DIR "messages".

Definition messagesFile (roomName : jsval) : path :=
  path_join MESSAGES_DIR (toString roomName +:+ ".json").

(** The body of [savedRooms.forEach]; a throw inside it leaves the loop
    (it is caught by the [try] around the whole load). *)
Fixpoint load_rooms (fs : FS) (savedRooms : list jsval)
    (r : list (jsval * gset string)) (rm : list (jsval * list jsval))
  : list (jsval * gset string) * list (jsval * list jsval) :=
  match savedRooms with
  | [] => (r, rm)
  | roomName :: rest =>
      let r1 := JsMap.set roomName ∅ r in
      if existsSync fs (messagesFile roomName) then
        match readFileSync fs (messagesFile roomName) with
        | Some messages =>
            load_rooms fs rest r1 (JsMap.set roomName messages rm)
        | None => (r1, rm)
        end
      else load_rooms fs rest r1 (JsMap.set roomName [] rm)
  end.

Definition loadSavedData (st : Server) : Server :=
  if existsSync (disk st) ROOMS_FILE then
    match readFileSync (disk st) ROOMS_FILE with
    | Some savedRooms =>
        let '(r, rm) :=
          load_rooms (disk st) savedRooms (rooms st) (roomMessages st) in
        with_roomMessages rm (with_rooms r st)
    | None => st
    end
  else st.

(** The server as it starts on a given disk: empty Maps, no
    connection, then the initial load. *)
Definition boot (fs : FS) : Server :=
  loadSavedData (MkServer [] [] fs ∅ ∅).

(** The start-up code before the load: each storage directory is made
    unless something of that name exists.  A throw here is not caught
    and ends the process ([None]). *)
Definition ensure_dir (p : path) (fs : FS) : option FS :=
  if negb (existsSync fs p) then mkdirSync fs p else Some fs.

Definition start (fs : FS) : option Server :=
  fs ← ensure_dir STORAGE_DIR fs;
  fs ← ensure_dir MESSAGES_DIR fs;
  Some (boot fs).

Definition saveRooms (st : Server) : Server :=
  let roomsArray := JsMap.keys (rooms st) in
  match writeFileSync (disk st) ROOMS_FILE roomsArray with
  | Some fs => with_disk fs st
  | None => st
  end.

Definition saveMessages (roomName : string) (st : Server) : Server :=
  let messages := default [] (JsMap.get (JStr roomName) (roomMessages st)) in
  match writeFileSync (disk st) (messagesFile (JStr roomName)) messages with
  | Some fs => with_disk fs st
  | None => st
  end.

(** *** The handlers registered in [io.on('connection', ...)] *)

(** A new connection: socket.io registers the socket and puts it in the
    room named after its own id; the handler sends the room list. *)
Definition connection (id : string) (st : Server) : Server * list emission :=
  let st := with_sockets (sockets st ∪ {[id]}) st in
  let st := with_adapter (socket_join id id (adapter st)) st in
  (st, [socket_emit id (RoomList (JsMap.keys (rooms st)))]).

Definition createRoom (id roomName : string) (st : Server)
  : Server * list emission :=
  if negb (JsMap.has (JStr roomName) (rooms st)) then
    let st := with_rooms (JsMap.set (JStr roomName) ∅ (rooms st)) st in
    let st :=
      with_roomMessages (JsMap.set (JStr roomName) [] (roomMessages st)) st in
    let st := with_adapter (socket_join id roomName (adapter st)) st in
    let st :=
      with_rooms
        (JsMap.alter (λ users, users ∪ {[id]}) (JStr roomName) (rooms st))
        st in
    let e1 := socket_emit id (RoomCreated roomName) in
    let e2 := io_emit st (RoomList (JsMap.keys (rooms st))) in
    (saveRooms st, [e1; e2])
  else (st, [socket_emit id (Error "Room already exists")]).

Definition joinRoom (id roomName : string) (st : Server)
  : Server * list emission :=
  if JsMap.has (JStr roomName) (rooms st) then
    let st := with_adapter (socket_join id roomName (adapter st)) st in
    let st :=
      with_rooms
        (JsMap.alter (λ users, users ∪ {[id]}) (JStr roomName) (rooms st))
        st in
    let e1 := socket_emit id (RoomJoined roomName) in
    let messages :=
      default [] (JsMap.get (JStr roomName) (roomMessages st)) in
    let e2 := socket_emit id (PreviousMessages messages) in
    let e3 := io_to st (JStr roomName) (UserJoined id) in
    (st, [e1; e2; e3])
  else (st, [socket_emit id (Error "Room does not exist")]).

(** The [sendMessage] listener for a payload that is an object; see
    [on_sendMessage] for an event without one. *)
Definition sendMessage (data : message_payload) (now : string) (st : Server)
  : Server * list emission :=
  if falsy (room data) || falsy (message data) || falsy (username data)
  then (st, [])
  else
    let room := default "" (room data) in
    let messageData :=
      {| user := default "" (username data);
         text := default "" (message data);
         time := now |} in
    let messages := default [] (JsMap.get (JStr room) (roomMessages st)) in
    let messages := (messages ++ [JObj messageData])%list in
    let st :=
      with_roomMessages (JsMap.set (JStr room) messages (roomMessages st))
        st in
    let st := saveMessages room st in
    (st, [io_to st (JStr room) (Message messageData)]).

(** The [sendMessage] listener on what the client really sent: [data]
    is [undefined] or [null] when the event comes without a payload
    object, and [const { room, message, username } = data] then throws a
    TypeError before the guard is reached.  Nothing catches it: the
    process ends ([None]), for every session. *)
Definition on_sendMessage (data : option message_payload) (now : string)
    (st : Server) : option (Server * list emission) :=
  match data with
  | None => None
  | Some data => Some (sendMessage data now st)
  end.

(** The body of [rooms.forEach] in the [disconnect] handler, entry by
    entry in Map order. *)
Fixpoint forEach_room (id : string) (st : Server)
    (entries : list (jsval * gset string))
  : list (jsval * gset string) * list emission :=
  match entries with
  | [] => ([], [])
  | (roomName, users) :: rest =>
      let '(rest', out) := forEach_room id st rest in
      if bool_decide (id ∈ users) then
        let users := users ∖ {[id]} in
        if bool_decide (size users = 0)
        then ((roomName, users) :: rest',
              io_to st roomName (UserLeft id) :: out)
        else ((roomName, users) :: rest', out)
      else ((roomName, users) :: rest', out)
  end.

(** A closing socket has left all its rooms and is no longer connected
    when its [disconnect] handler runs. *)
Definition disconnect (id : string) (st : Server) : Server * list emission :=
  let st := with_adapter (leave_all id (adapter st)) st in
  let st := with_sockets (sockets st ∖ {[id]}) st in
  let '(r, out) := forEach_room id st (rooms st) in
  let st := with_rooms r st in
  (st, (out ++ [io_emit st (RoomList (JsMap.keys (rooms st)))])%list).

Definition step (id : string) (req : request) (st : Server)
  : Server * list emission :=
  match req with
  | Connect => connection id st
  | CreateRoom roomName => createRoom id roomName st
  | JoinRoom roomName => joinRoom id roomName st
  | SendMessage data now => sendMessage data now st
  | Disconnect => disconnect id st
  end.

(** Events are handled one at a time, each to completion. *)
Fixpoint run (trace : list (string * request)) (st : Server)
  : Server * list emission :=
  match trace with
  | [] => (st, [])
  | (id, req) :: rest =>
      let '(st1, out1) := step id req st in
      let '(st2, out2) := run rest st1 in
      (st2, (out1 ++ out2)%list)
  end.

(** A connection is opened by a socket that is not connected; every
    other request comes from a connected socket. *)
Definition enabled (id : string) (req : request) (st : Server) : Prop :=
  match req with
  | Connect => id ∉ sockets st
  | _ => id ∈ sockets st
  end.

Inductive reachable : Server → Prop :=
| reachable_boot fs : reachable (boot fs)
| reachable_step id req st :
    reachable st → enabled id req st → reachable (step id req st).1.

(** *** Saving everything, as one restart would find it *)

Definition save_each (names : list jsval) (st : Server) : Server :=
  fold_left
    (λ s k,
       match k with
       | JStr roomName => saveMessages roomName s
       | JObj _ => s
       end)
    names st.

Definition saveAll (st : Server) : Server :=
  save_each (JsMap.keys (rooms st)) (saveRooms st).

Definition restart (st : Server) : Server := boot (disk st).

(** *** Sample data

    The disk of a fresh installation once the start-up code has made
    the two storage directories, and a short session on it. *)

Definition fresh_disk : FS :=
  MkFS {[ dirname; STORAGE_DIR; MESSAGES_DIR ]} ∅.

Definition two_in_general : Server :=
  (run [("A", Connect); ("B", Connect);
        ("A", CreateRoom "general"); ("B", JoinRoom "general")]
     (boot fresh_disk)).1.

(** *** Notions used in the statements *)

(** The membership Set kept in [rooms] (empty when there is no such
    room). *)
Definition members (st : Server) (r : string) : gset string :=
  default ∅ (JsMap.get (JStr r) (rooms st)).

(** Every member of a room is in the socket.io room of that name; a
    socket.io room holds connected sockets only, each a member of the
    room or the socket the room is named after. *)
Definition consistent (st : Server) : Prop :=
  (∀ r, members st r ⊆ sockets_in (adapter st) r)
  ∧ (∀ r id, id ∈ sockets_in (adapter st) r →
             id ∈ sockets st ∧ (id = r ∨ id ∈ members st r)).

(** A payload field is missing when it is absent or the empty string. *)
Definition missing (v : option string) : Prop := v = None ∨ v = Some "".

(** Socket [id] is in no membership Set. *)
Definition in_no_room (id : string) (st : Server) : Prop :=
  Forall (λ e, id ∉ e.2) (rooms st).

(** Every request of a trace is enabled when its turn comes. *)
Fixpoint run_enabled (trace : list (string * request)) (st : Server) : Prop :=
  match trace with
  | [] => True
  | (id, req) :: rest =>
      enabled id req st ∧ run_enabled rest (step id req st).1
  end.

#[global] Instance enabled_dec id req st : Decision (enabled id req st).
Proof. destruct req; simpl; apply _. Defined.

#[global] Instance run_enabled_dec trace st :
  Decision (run_enabled trace st).
Proof.
  revert st. induction trace as [|[id req] trace IH]; intros st; simpl; apply _.
Defined.

(** *** Notions used in the further properties *)

Definition is_roomList (e : event) : bool :=
  match e with RoomList _ => true | _ => false end.

(** The log kept for room [r] (empty when there is none). *)
Definition room_log (st : Server) (r : string) : list jsval :=
  default [] (JsMap.get (JStr r) (roomMessages st)).

(** No key of a Map entry is found again further down: what [set] and
    [alter] keep of a Map built from the empty one. *)
Fixpoint unique_keys {V} (m : list (jsval * V)) : Prop :=
  match m with
  | [] => True
  | (k, _) :: m' => JsMap.get k m' = None ∧ unique_keys m'
  end.

(** Messages for room [r], each given by its sender, text, author and
    the clock text on arrival, as the requests the server handles. *)
Definition sends (r : string) (msgs : list (string * string * string * string))
  : list (string * request) :=
  (λ x, (x.1.1.1,
         SendMessage (Payload (Some r) (Some x.1.1.2) (Some x.1.2)) x.2))
    <$> msgs.

(** The requests of socket [id] for what its component emitted. *)
Definition requests_of (id now : string) (out : list Chat.emitted)
  : list (string * request) :=
  (λ e, (id, to_request now e)) <$> out.


(** * Properties *)

(** ** The Map operations *)

Section js_map_facts.
Context {V : Type}.
Implicit Types (m : list (jsval * V)) (k : jsval) (a b : string).

Lemma same_key_true k k' : same_key k k' = true → k = k'.
Proof.
  destruct k, k'; unfold same_key; try discriminate.
  intros H. apply bool_decide_eq_true in H. by subst.
Qed.

Lemma same_key_str a b : same_key (JStr a) (JStr b) = bool_decide (a = b).
Proof. reflexivity. Qed.

Lemma same_key_trans_false k k' k'' :
  same_key k' k = false → same_key k k'' = true → same_key k' k'' = false.
Proof. intros Hne Heq. apply same_key_true in Heq. by subst. Qed.

Lemma keys_alter (f : V → V) k m : JsMap.keys (JsMap.alter f k m) = JsMap.keys m.
Proof.
  unfold JsMap.keys. induction m as [|[k' v] m IH]; simpl; [done|].
  destruct (same_key k k'); simpl; [done|]. by f_equal.
Qed.

Lemma get_alter_same (f : V → V) k m :
  JsMap.get k (JsMap.alter f k m) = f <$> JsMap.get k m.
Proof.
  induction m as [|[k' v] m IH]; simpl; [done|].
  destruct (same_key k k') eqn:E; simpl; rewrite E; [done|]. apply IH.
Qed.

Lemma get_alter_other (f : V → V) k k' m :
  same_key k' k = false → JsMap.get k' (JsMap.alter f k m) = JsMap.get k' m.
Proof.
  intros Hne. induction m as [|[k'' v] m IH]; simpl; [done|].
  destruct (same_key k k'') eqn:E; simpl.
  - by rewrite (same_key_trans_false _ _ _ Hne E).
  - rewrite IH. done.
Qed.

Lemma has_true k m : JsMap.has k m = true ↔ is_Some (JsMap.get k m).
Proof.
  unfold JsMap.has. destruct (JsMap.get k m); naive_solver.
Qed.

Lemma has_false k m : JsMap.has k m = false ↔ JsMap.get k m = None.
Proof. unfold JsMap.has. by destruct (JsMap.get k m). Qed.

Lemma get_app_not_found k m m' :
  JsMap.get k m = None → JsMap.get k (m ++ m') = JsMap.get k m'.
Proof.
  induction m as [|[k' v] m IH]; simpl; [done|].
  destruct (same_key k k'); [done|]. apply IH.
Qed.

Lemma get_app_found k m m' v :
  JsMap.get k m = Some v → JsMap.get k (m ++ m') = Some v.
Proof.
  induction m as [|[k' v'] m IH]; simpl; [done|].
  destruct (same_key k k'); [done|]. apply IH.
Qed.

Lemma get_set_same a v m :
  JsMap.get (JStr a) (JsMap.set (JStr a) v m) = Some v.
Proof.
  unfold JsMap.set. destruct (JsMap.has (JStr a) m) eqn:E.
  - rewrite get_alter_same. apply has_true in E as [w ->]. done.
  - apply has_false in E. rewrite (get_app_not_found _ _ _ E). simpl.
    by rewrite same_key_str, bool_decide_eq_true_2.
Qed.

Lemma get_set_other k k' v m :
  same_key k' k = false → JsMap.get k' (JsMap.set k v m) = JsMap.get k' m.
Proof.
  intros Hne. unfold JsMap.set. destruct (JsMap.has k m).
  - by apply get_alter_other.
  - destruct (JsMap.get k' m) as [w|] eqn:E.
    + by apply get_app_found.
    + rewrite (get_app_not_found _ _ _ E). simpl. by rewrite Hne.
Qed.

Lemma keys_set k v m :
  JsMap.keys (JsMap.set k v m)
  = if JsMap.has k m then JsMap.keys m else JsMap.keys m ++ [k].
Proof.
  unfold JsMap.set. destruct (JsMap.has k m).
  - apply keys_alter.
  - unfold JsMap.keys. by rewrite fmap_app.
Qed.

Lemma get_None_not_key a m :
  JsMap.get (JStr a) m = None ↔ JStr a ∉ JsMap.keys m.
Proof.
  unfold JsMap.keys. induction m as [|[k' v] m IH]; simpl.
  - split; [intros _; apply not_elem_of_nil | done].
  - rewrite not_elem_of_cons.
    destruct (same_key (JStr a) k') eqn:E.
    + apply same_key_true in E. subst. split; [done|]. by intros [? _].
    + rewrite IH. split; [|by intros [_ ?]]. intros ?; split; [|done].
      intros <-. by rewrite same_key_str, bool_decide_eq_true_2 in E.
Qed.

Lemma get_Some_elem k v m : JsMap.get k m = Some v → ∃ k', (k', v) ∈ m.
Proof.
  induction m as [|[k' v'] m IH]; simpl; [done|].
  destruct (same_key k k').
  - intros [= ->]. exists k'. constructor.
  - intros H. destruct (IH H) as [k'' ?]. exists k''. by constructor.
Qed.
End js_map_facts.

(** ** Room creation and joining *)

Lemma has_not_key {V} a (m : list (jsval * V)) :
  JStr a ∉ JsMap.keys m → JsMap.has (JStr a) m = false.
Proof. intros H. by apply has_false, get_None_not_key. Qed.

Lemma has_key {V} a (m : list (jsval * V)) :
  JStr a ∈ JsMap.keys m → JsMap.has (JStr a) m = true.
Proof.
  intros H. destruct (JsMap.has (JStr a) m) eqn:E; [done|].
  by apply has_false, get_None_not_key in E.
Qed.

Lemma saveRooms_registry st :
  rooms (saveRooms st) = rooms st
  ∧ roomMessages (saveRooms st) = roomMessages st
  ∧ sockets (saveRooms st) = sockets st
  ∧ adapter (saveRooms st) = adapter st.
Proof. unfold saveRooms. by destruct (writeFileSync _ _ _). Qed.

Lemma saveRooms_refused st :
  writable (disk st) ROOMS_FILE = false → disk (saveRooms st) = disk st.
Proof. intros Hw. unfold saveRooms, writeFileSync. by rewrite Hw. Qed.

Lemma saveRooms_written st :
  writable (disk st) ROOMS_FILE = true →
  files (disk (saveRooms st)) !! ROOMS_FILE = Some (JsMap.keys (rooms st)).
Proof.
  intros Hw. unfold saveRooms, writeFileSync. rewrite Hw. simpl.
  apply lookup_insert_eq.
Qed.

Lemma saveMessages_registry roomName st :
  rooms (saveMessages roomName st) = rooms st
  ∧ roomMessages (saveMessages roomName st) = roomMessages st
  ∧ sockets (saveMessages roomName st) = sockets st
  ∧ adapter (saveMessages roomName st) = adapter st.
Proof. unfold saveMessages. by destruct (writeFileSync _ _ _). Qed.

(** C1, as the code has it: [createRoom] on a name the registry does
    not hold answers the caller with [roomCreated], appends the room to
    the registry with an empty message log, and writes the extended list
    of names to the rooms file when that file can be written; when it
    cannot, the room is made all the same and the disk stays as it was.
    On a name the registry holds it changes nothing and sends the single
    error ["Room already exists"] to the caller alone. *)
Theorem createRoom_spec (st : Server) (id roomName : string) :
  (JStr roomName ∉ JsMap.keys (rooms st) →
     let names := JsMap.keys (rooms st) ++ [JStr roomName] in
     let st' := (createRoom id roomName st).1 in
     (createRoom id roomName st).2
       = [socket_emit id (RoomCreated roomName);
          Emit (sockets st) (RoomList names)]
     ∧ JsMap.keys (rooms st') = names
     ∧ JsMap.get (JStr roomName) (rooms st') = Some {[id]}
     ∧ JsMap.get (JStr roomName) (roomMessages st') = Some []
     ∧ (writable (disk st) ROOMS_FILE = true →
          files (disk st') !! ROOMS_FILE = Some names)
     ∧ (writable (disk st) ROOMS_FILE = false → disk st' = disk st))
  ∧ (JStr roomName ∈ JsMap.keys (rooms st) →
     createRoom id roomName st
       = (st, [socket_emit id (Error "Room already exists")])).
Proof.
  split.
  - intros Hfresh names st'.
    pose proof (has_not_key _ _ Hfresh) as Hhas.
    assert (Hnames : JsMap.keys
              (JsMap.alter (λ users, users ∪ {[id]}) (JStr roomName)
                 (JsMap.set (JStr roomName) ∅ (rooms st))) = names).
    { by rewrite keys_alter, keys_set, Hhas. }
    subst st'. unfold createRoom. rewrite Hhas. cbn [negb fst snd].
    match goal with |- context [saveRooms ?s] => set (st1 := s) end.
    destruct (saveRooms_registry st1) as (Hr & Hm & _ & _).
    rewrite Hr, Hm. subst st1. cbn [rooms roomMessages with_rooms
      with_roomMessages with_adapter sockets disk adapter io_emit].
    rewrite Hnames. do 2 (split; [done|]). split; [|split; [|split]].
    + rewrite get_alter_same, get_set_same. simpl. f_equal.
      apply (left_id_L ∅ (∪)).
    + apply get_set_same.
    + intros Hw. rewrite saveRooms_written; [|done]. simpl. by rewrite Hnames.
    + intros Hw. by rewrite saveRooms_refused.
  - intros Htaken. unfold createRoom. by rewrite (has_key _ _ Htaken).
Qed.

Lemma received_cons id e out :
  received id (e :: out)
  = if bool_decide (id ∈ dest e) then ev e :: received id out
    else received id out.
Proof.
  unfold received. rewrite filter_cons.
  destruct (decide (id ∈ dest e)) as [H|H].
  - by rewrite (bool_decide_eq_true_2 _ H).
  - by rewrite (bool_decide_eq_false_2 _ H).
Qed.

Lemma received_app id out1 out2 :
  received id (out1 ++ out2) = received id out1 ++ received id out2.
Proof. unfold received. by rewrite filter_app, fmap_app. Qed.

Lemma sockets_in_join id id' r r' a :
  id' ∈ sockets_in (socket_join id r a) r'
  ↔ id' ∈ sockets_in a r' ∨ (id' = id ∧ r' = r).
Proof.
  unfold socket_join, sockets_in. destruct (decide (r = r')) as [->|Hne].
  - rewrite lookup_insert_eq. simpl.
    rewrite elem_of_union, elem_of_singleton. intuition.
  - rewrite lookup_insert_ne by done. intuition congruence.
Qed.

Lemma sendMessage_valid r m u now st :
  r ≠ "" → m ≠ "" → u ≠ "" →
  sendMessage (Payload (Some r) (Some m) (Some u)) now st
  = let messageData := MessageData u m now in
    let messages :=
      default [] (JsMap.get (JStr r) (roomMessages st)) ++ [JObj messageData] in
    (saveMessages r
       (with_roomMessages (JsMap.set (JStr r) messages (roomMessages st)) st),
     [Emit (sockets_in (adapter st) r) (Message messageData)]).
Proof.
  intros Hr Hm Hu. unfold sendMessage, falsy. simpl.
  rewrite !bool_decide_eq_false_2 by done. simpl.
  match goal with |- context [saveMessages r ?s] => set (st1 := s) end.
  destruct (saveMessages_registry r st1) as (_ & _ & _ & Ha).
  unfold io_to. by rewrite Ha.
Qed.

(** C2: [joinRoom] on a name the registry does not hold changes nothing
    and sends the single error ["Room does not exist"] to the caller
    alone; on a room the registry holds it adds the caller to the room's
    members, leaves the logs as they are and sends the caller
    [roomJoined], then [previousMessages] with the room's whole log,
    oldest first: a message accepted for the room just before the join
    is its last element. *)
Theorem joinRoom_spec (st : Server) (id roomName : string) :
  (JStr roomName ∉ JsMap.keys (rooms st) →
     joinRoom id roomName st
     = (st, [socket_emit id (Error "Room does not exist")]))
  ∧ (JStr roomName ∈ JsMap.keys (rooms st) →
     let st' := (joinRoom id roomName st).1 in
     let out := (joinRoom id roomName st).2 in
     let log := default [] (JsMap.get (JStr roomName) (roomMessages st)) in
     (∃ users, JsMap.get (JStr roomName) (rooms st) = Some users
               ∧ JsMap.get (JStr roomName) (rooms st') = Some (users ∪ {[id]}))
     ∧ roomMessages st' = roomMessages st
     ∧ received id out
       = [RoomJoined roomName; PreviousMessages log; UserJoined id]
     ∧ ∀ m u now id2, m ≠ "" → u ≠ "" → roomName ≠ "" →
         let sent :=
           (sendMessage (Payload (Some roomName) (Some m) (Some u)) now st).1 in
         received id2 (joinRoom id2 roomName sent).2
         = [RoomJoined roomName;
            PreviousMessages (log ++ [JObj (MessageData u m now)]);
            UserJoined id2]).
Proof.
  assert (Hjoin : ∀ s i, JStr roomName ∈ JsMap.keys (rooms s) →
    received i (joinRoom i roomName s).2
    = [RoomJoined roomName;
       PreviousMessages (default [] (JsMap.get (JStr roomName) (roomMessages s)));
       UserJoined i]).
  { intros s i Hin. unfold joinRoom. rewrite (has_key _ _ Hin).
    cbn [snd socket_emit io_to adapter with_adapter with_rooms roomMessages].
    rewrite !received_cons. cbn [dest ev].
    rewrite !bool_decide_eq_true_2; [done | | set_solver | set_solver].
    apply sockets_in_join. by right. }
  split.
  - intros Habsent. unfold joinRoom. by rewrite (has_not_key _ _ Habsent).
  - intros Hin st' out log. repeat split.
    + subst st'. unfold joinRoom. pose proof (has_key _ _ Hin) as Hhas.
      rewrite Hhas. apply has_true in Hhas as [users Hu].
      exists users. split; [done|]. simpl. by rewrite get_alter_same, Hu.
    + subst st'. unfold joinRoom. by rewrite (has_key _ _ Hin).
    + subst out. by apply Hjoin.
    + intros m u now id2 Hm Hu Hr sent. subst sent.
      rewrite (sendMessage_valid _ _ _ _ _ Hr Hm Hu). cbn [fst].
      match goal with |- context [saveMessages roomName ?s] => set (st1 := s) end.
      destruct (saveMessages_registry roomName st1) as (Hrs & Hms & _ & _).
      rewrite Hjoin by (by rewrite Hrs). rewrite Hms. subst st1. simpl.
      by rewrite get_set_same.
Qed.

(** ** Members of a room and the socket.io room of the same name *)

Lemma members_add st a r id :
  JsMap.has (JStr a) (rooms st) = true →
  members
    (with_rooms (JsMap.alter (λ users, users ∪ {[id]}) (JStr a) (rooms st)) st) r
  = if bool_decide (a = r) then members st r ∪ {[id]} else members st r.
Proof.
  intros Hhas. unfold members. simpl. case_bool_decide as E.
  - subst. rewrite get_alter_same. apply has_true in Hhas as [u ->]. done.
  - rewrite get_alter_other; [done|]. rewrite same_key_str.
    apply bool_decide_eq_false_2. congruence.
Qed.

Lemma sockets_in_leave_all id a r :
  sockets_in (leave_all id a) r = sockets_in a r ∖ {[id]}.
Proof.
  unfold sockets_in, leave_all. rewrite lookup_fmap.
  destruct (a !! r); simpl; [done|]. apply leibniz_equiv. set_solver.
Qed.

Lemma forEach_room_rooms id st entries :
  (forEach_room id st entries).1 = (λ e, (e.1, e.2 ∖ {[id]})) <$> entries.
Proof.
  induction entries as [|[k users] rest IH]; simpl; [done|].
  destruct (forEach_room id st rest) as [rest' out]. simpl in IH. subst rest'.
  case_bool_decide as Hin.
  - by case_bool_decide.
  - simpl. do 2 f_equal. apply leibniz_equiv. set_solver.
Qed.

Lemma get_fmap_values {V} (f : V → V) k (m : list (jsval * V)) :
  JsMap.get k ((λ e, (e.1, f e.2)) <$> m) = f <$> JsMap.get k m.
Proof.
  induction m as [|[k' v] m IH]; simpl; [done|].
  by destruct (same_key k k').
Qed.

Lemma keys_fmap_values {V} (f : V → V) (m : list (jsval * V)) :
  JsMap.keys ((λ e, (e.1, f e.2)) <$> m) = JsMap.keys m.
Proof.
  unfold JsMap.keys. rewrite <- list_fmap_compose. by apply list_fmap_ext.
Qed.

Lemma disconnect_rooms id st :
  rooms (disconnect id st).1 = (λ e, (e.1, e.2 ∖ {[id]})) <$> rooms st.
Proof.
  unfold disconnect.
  match goal with |- context [forEach_room id ?s ?r] =>
    pose proof (forEach_room_rooms id s r) as H;
    destruct (forEach_room id s r) as [r' out] end.
  simpl in *. by subst.
Qed.

Lemma disconnect_other_state id st :
  roomMessages (disconnect id st).1 = roomMessages st
  ∧ disk (disconnect id st).1 = disk st
  ∧ sockets (disconnect id st).1 = sockets st ∖ {[id]}
  ∧ adapter (disconnect id st).1 = leave_all id (adapter st).
Proof.
  unfold disconnect.
  match goal with |- context [forEach_room id ?s ?r] =>
    destruct (forEach_room id s r) as [r' out] end.
  done.
Qed.

Lemma members_disconnect id st r :
  members (disconnect id st).1 r = members st r ∖ {[id]}.
Proof.
  unfold members.
  rewrite disconnect_rooms, (get_fmap_values (λ u, u ∖ {[id]})).
  destruct (JsMap.get (JStr r) (rooms st)); simpl; [done|].
  apply leibniz_equiv. set_solver.
Qed.

Lemma set_empty_all_empty k (m : list (jsval * gset string)) :
  Forall (λ e, e.2 = ∅) m → Forall (λ e, e.2 = ∅) (JsMap.set k ∅ m).
Proof.
  intros H. unfold JsMap.set. destruct (JsMap.has k m).
  - induction H as [|[k' v] m Hv Hm IH]; simpl; [constructor|].
    destruct (same_key k k'); constructor; done.
  - apply Forall_app. split; [done|]. by repeat constructor.
Qed.

Lemma load_rooms_all_empty fs savedRooms r rm :
  Forall (λ e, e.2 = ∅) r →
  Forall (λ e, e.2 = ∅) (load_rooms fs savedRooms r rm).1.
Proof.
  revert r rm. induction savedRooms as [|k rest IH]; intros r rm H; simpl.
  - done.
  - destruct (existsSync fs (messagesFile k)).
    + destruct (readFileSync fs (messagesFile k)).
      * by apply IH, set_empty_all_empty.
      * by apply set_empty_all_empty.
    + by apply IH, set_empty_all_empty.
Qed.

Lemma boot_state fs :
  sockets (boot fs) = ∅ ∧ adapter (boot fs) = ∅ ∧ disk (boot fs) = fs
  ∧ Forall (λ e, e.2 = ∅) (rooms (boot fs)).
Proof.
  unfold boot, loadSavedData. simpl.
  destruct (existsSync fs ROOMS_FILE); [|by repeat split; constructor].
  destruct (readFileSync fs ROOMS_FILE) as [saved|];
    [|by repeat split; constructor].
  pose proof (load_rooms_all_empty fs saved [] [] (Forall_nil_2 _)) as H.
  destruct (load_rooms fs saved [] []) as [r rm]. done.
Qed.

Lemma consistent_boot fs : consistent (boot fs).
Proof.
  destruct (boot_state fs) as (Hs & Ha & _ & Hr). split.
  - intros r id. unfold members.
    destruct (JsMap.get (JStr r) (rooms (boot fs))) as [users|] eqn:E;
      simpl; [|set_solver].
    apply get_Some_elem in E as [k Hk].
    rewrite Forall_forall in Hr. specialize (Hr _ Hk). simpl in Hr.
    subst. set_solver.
  - intros r id. rewrite Ha. unfold sockets_in. rewrite lookup_empty. simpl.
    set_solver.
Qed.

Lemma sendMessage_registry data now st :
  rooms (sendMessage data now st).1 = rooms st
  ∧ sockets (sendMessage data now st).1 = sockets st
  ∧ adapter (sendMessage data now st).1 = adapter st.
Proof.
  unfold sendMessage.
  destruct (falsy (room data) || falsy (message data) || falsy (username data));
    [done|]. cbn [fst].
  match goal with |- context [saveMessages ?r ?s] =>
    destruct (saveMessages_registry r s) as (-> & _ & -> & ->) end.
  done.
Qed.

Lemma createRoom_fresh_state id a st :
  JsMap.has (JStr a) (rooms st) = false →
  let st' := (createRoom id a st).1 in
  sockets st' = sockets st
  ∧ adapter st' = socket_join id a (adapter st)
  ∧ JsMap.keys (rooms st') = JsMap.keys (rooms st) ++ [JStr a]
  ∧ ∀ r, members st' r
         = if bool_decide (a = r) then {[id]} else members st r.
Proof.
  intros Hhas st'. subst st'. unfold createRoom. rewrite Hhas. cbn [negb fst].
  match goal with |- context [saveRooms ?s] =>
    destruct (saveRooms_registry s) as (Hr & _ & -> & ->) end.
  unfold members. rewrite Hr. simpl. repeat split.
  - by rewrite keys_alter, keys_set, Hhas.
  - intros r. case_bool_decide as E.
    + subst. rewrite get_alter_same, get_set_same. simpl.
      apply (left_id_L ∅ (∪)).
    + assert (same_key (JStr r) (JStr a) = false) as Hk.
      { rewrite same_key_str. apply bool_decide_eq_false_2. congruence. }
      by rewrite get_alter_other, get_set_other.
Qed.

Lemma joinRoom_present_state id a st :
  JsMap.has (JStr a) (rooms st) = true →
  let st' := (joinRoom id a st).1 in
  sockets st' = sockets st
  ∧ adapter st' = socket_join id a (adapter st)
  ∧ JsMap.keys (rooms st') = JsMap.keys (rooms st)
  ∧ ∀ r, members st' r
         = if bool_decide (a = r) then members st r ∪ {[id]} else members st r.
Proof.
  intros Hhas st'. subst st'. unfold joinRoom. rewrite Hhas. cbn [fst].
  repeat split.
  - simpl. apply keys_alter.
  - intros r.
    apply (members_add (with_adapter (socket_join id a (adapter st)) st)).
    done.
Qed.

Lemma consistent_step id req st :
  consistent st → enabled id req st → consistent (step id req st).1.
Proof.
  intros [Hsub Hadp] Hen. destruct req as [|a|a|data now|]; simpl in *.
  - (* Connect *)
    split.
    + intros r x Hx. apply sockets_in_join. left. by apply Hsub.
    + intros r x Hx. apply sockets_in_join in Hx as [Hx|[-> ->]].
      * destruct (Hadp _ _ Hx) as [? ?]. split; [set_solver|done].
      * split; [set_solver|by left].
  - (* CreateRoom *)
    destruct (JsMap.has (JStr a) (rooms st)) eqn:Hhas.
    { unfold createRoom. rewrite Hhas. by split. }
    destruct (createRoom_fresh_state id a st Hhas) as (Hs & Ha & _ & Hm).
    assert (members st a = ∅) as Hnone.
    { unfold members. apply has_false in Hhas. by rewrite Hhas. }
    split.
    + intros r x. rewrite Hm, Ha, sockets_in_join. case_bool_decide as E.
      * subst. rewrite elem_of_singleton. intros ->. by right.
      * intros Hx. left. by apply Hsub.
    + intros r x. rewrite Hm, Ha, Hs, sockets_in_join. intros [Hx|[-> ->]].
      * destruct (Hadp _ _ Hx) as [? Hor]. split; [done|].
        case_bool_decide as E; [|done]. subst r.
        destruct Hor as [?|Hin]; [by left|]. rewrite Hnone in Hin. set_solver.
      * split; [done|]. rewrite bool_decide_eq_true_2 by done.
        right. set_solver.
  - (* JoinRoom *)
    destruct (JsMap.has (JStr a) (rooms st)) eqn:Hhas.
    2:{ unfold joinRoom. rewrite Hhas. by split. }
    destruct (joinRoom_present_state id a st Hhas) as (Hs & Ha & _ & Hm).
    split.
    + intros r x. rewrite Hm, Ha, sockets_in_join. case_bool_decide as E.
      * subst. rewrite elem_of_union, elem_of_singleton.
        intros [Hx| ->]; [left; by apply Hsub | by right].
      * intros Hx. left. by apply Hsub.
    + intros r x. rewrite Hm, Ha, Hs, sockets_in_join. intros [Hx|[-> ->]].
      * destruct (Hadp _ _ Hx) as [? Hor]. split; [done|].
        case_bool_decide as E; [|done]. subst r.
        destruct Hor as [?|Hin]; [by left|]. right. set_solver.
      * split; [done|]. rewrite bool_decide_eq_true_2 by done.
        right. set_solver.
  - (* SendMessage *)
    destruct (sendMessage_registry data now st) as (Hr & Hs & Ha).
    unfold consistent, members. rewrite Hr, Hs, Ha. by split.
  - (* Disconnect *)
    destruct (disconnect_other_state id st) as (_ & _ & Hs & Ha).
    split.
    + intros r x. rewrite members_disconnect, Ha, sockets_in_leave_all.
      specialize (Hsub r). set_solver.
    + intros r x. rewrite members_disconnect, Ha, Hs, sockets_in_leave_all.
      intros Hx. apply elem_of_difference in Hx as [Hx Hne].
      destruct (Hadp _ _ Hx) as [? Hor]. split; [set_solver|].
      destruct Hor as [?|?]; [by left|right; set_solver].
Qed.

Lemma reachable_consistent st : reachable st → consistent st.
Proof.
  induction 1 as [fs|id req st _ IH Hen].
  - apply consistent_boot.
  - by apply consistent_step.
Qed.

(** ** Messages *)

(** C3: when [sendMessage] carries a non-empty room, message and
    username, every session that is a member of that room (the sender
    too, when it is one) receives from the handler exactly one event,
    the [message] whose author and text are the given username and
    message and whose time is the clock text, non-empty as the clock
    text is; and that record is appended to the room's log in memory. *)
Theorem sendMessage_broadcast (st : Server) (r m u now id : string) :
  reachable st →
  r ≠ "" → m ≠ "" → u ≠ "" → now ≠ "" →
  id ∈ members st r →
  let res := sendMessage (Payload (Some r) (Some m) (Some u)) now st in
  ∃ messageData,
    received id res.2 = [Message messageData]
    ∧ filter is_message (received id res.2) = [Message messageData]
    ∧ user messageData = u ∧ text messageData = m
    ∧ time messageData ≠ ""
    ∧ JsMap.get (JStr r) (roomMessages res.1)
      = Some (default [] (JsMap.get (JStr r) (roomMessages st))
              ++ [JObj messageData]).
Proof.
  intros Hreach Hr Hm Hu Hnow Hin res. subst res.
  rewrite (sendMessage_valid _ _ _ _ _ Hr Hm Hu). cbn [fst snd].
  exists (MessageData u m now).
  assert (id ∈ sockets_in (adapter st) r) as Hroom.
  { destruct (reachable_consistent _ Hreach) as [Hsub _]. by apply Hsub. }
  assert (received id [Emit (sockets_in (adapter st) r)
                         (Message (MessageData u m now))]
          = [Message (MessageData u m now)]) as Hrec.
  { rewrite received_cons. simpl. by rewrite bool_decide_eq_true_2. }
  rewrite Hrec. repeat split; try done.
  match goal with |- context [saveMessages r ?s] =>
    destruct (saveMessages_registry r s) as (_ & -> & _ & _) end.
  simpl. apply get_set_same.
Qed.

Lemma falsy_missing v : falsy v = true ↔ missing v.
Proof.
  unfold falsy, missing. destruct v as [s|]; [|naive_solver].
  rewrite bool_decide_eq_true. naive_solver.
Qed.

(** X22: a [sendMessage] whose payload is an object with the room, the
    message or the username absent or empty is dropped: the state (logs
    and disk included) is left as it was and nothing is emitted, no
    [message] and no [error]. *)
Theorem sendMessage_invalid_dropped (st : Server) (data : message_payload)
    (now : string) :
  missing (room data) ∨ missing (message data) ∨ missing (username data) →
  sendMessage data now st = (st, []).
Proof.
  rewrite <- !falsy_missing. intros H. unfold sendMessage.
  destruct (falsy (room data)), (falsy (message data)),
    (falsy (username data)); simpl; try done.
  by destruct H as [?|[?|?]].
Qed.

(** C6 on the code: the handler takes [data] apart before it looks at
    the fields, so a [sendMessage] that carries no payload at all is not
    dropped: the handler throws and the server process ends.  The payload
    [{}], whose three fields are absent, is dropped as the claim says. *)
Theorem sendMessage_without_payload_crashes (st : Server) (now : string) :
  on_sendMessage None now st = None
  ∧ on_sendMessage (Some (Payload None None None)) now st = Some (st, []).
Proof. split; reflexivity. Qed.

(** C5, as the code has it: on a successful [joinRoom] every member of
    the room, the joining session included, receives exactly one
    [userJoined] carrying the joiner's id; a session that is not a
    member receives none, unless its own id is the room's name. *)
Theorem joinRoom_userJoined (st : Server) (id a : string) :
  reachable st → id ∈ sockets st →
  JStr a ∈ JsMap.keys (rooms st) →
  let res := joinRoom id a st in
  id ∈ members res.1 a
  ∧ (∀ id', id' ∈ members res.1 a →
       filter is_userJoined (received id' res.2) = [UserJoined id])
  ∧ (∀ id', id' ∉ members res.1 a → id' ≠ a →
       filter is_userJoined (received id' res.2) = []).
Proof.
  intros Hreach Hconn Hin res.
  pose proof (has_key _ _ Hin) as Hhas.
  assert (consistent res.1) as [Hsub Hadp].
  { apply (consistent_step id (JoinRoom a) st); [|done].
    by apply reachable_consistent. }
  destruct (joinRoom_present_state id a st Hhas) as (_ & Ha & _ & Hm).
  fold res in Ha, Hm.
  assert (∀ id', received id' res.2
     = (if bool_decide (id' = id)
        then [RoomJoined a;
              PreviousMessages
                (default [] (JsMap.get (JStr a) (roomMessages st)))]
        else [])
       ++ (if bool_decide (id' ∈ sockets_in (adapter res.1) a)
           then [UserJoined id] else [])) as Hrec.
  { intros id'. subst res. unfold joinRoom. rewrite Hhas.
    cbn [fst snd socket_emit io_to adapter with_adapter with_rooms
         roomMessages].
    rewrite !received_cons. unfold socket_emit. cbn [dest ev].
    destruct (decide (id' = id)) as [->|Hne].
    - rewrite !(bool_decide_eq_true_2 (id ∈ {[id]})) by set_solver.
      rewrite (bool_decide_eq_true_2 (id = id)) by done.
      by case_bool_decide.
    - rewrite !(bool_decide_eq_false_2 (id' ∈ {[id]})) by set_solver.
      rewrite (bool_decide_eq_false_2 (id' = id)) by done.
      by case_bool_decide. }
  repeat split.
  - rewrite Hm, bool_decide_eq_true_2 by done. set_solver.
  - intros id' Hmem. rewrite Hrec.
    rewrite (bool_decide_eq_true_2 (id' ∈ _)) by (by apply Hsub).
    by case_bool_decide.
  - intros id' Hmem Hne. rewrite Hrec.
    rewrite (bool_decide_eq_false_2 (id' ∈ _)).
    + by case_bool_decide.
    + intros Hx. destruct (Hadp _ _ Hx) as [_ [?|?]]; done.
Qed.

(** ** Rooms and members over the server's lifetime *)

Lemma step_keys id req st :
  JsMap.keys (rooms st) `prefix_of` JsMap.keys (rooms (step id req st).1).
Proof.
  destruct req as [|a|a|data now|]; simpl.
  - reflexivity.
  - destruct (JsMap.has (JStr a) (rooms st)) eqn:Hhas.
    + unfold createRoom. rewrite Hhas. reflexivity.
    + destruct (createRoom_fresh_state id a st Hhas) as (_ & _ & -> & _).
      by apply prefix_app_r.
  - destruct (JsMap.has (JStr a) (rooms st)) eqn:Hhas.
    + destruct (joinRoom_present_state id a st Hhas) as (_ & _ & -> & _).
      reflexivity.
    + unfold joinRoom. rewrite Hhas. reflexivity.
  - destruct (sendMessage_registry data now st) as (-> & _). reflexivity.
  - rewrite disconnect_rooms, (keys_fmap_values (λ u, u ∖ {[id]})).
    reflexivity.
Qed.

Lemma run_cons id req trace st :
  run ((id, req) :: trace) st
  = ((run trace (step id req st).1).1,
     (step id req st).2 ++ (run trace (step id req st).1).2).
Proof.
  cbn [run]. destruct (step id req st) as [st1 out1]. cbn [fst snd].
  by destruct (run trace st1) as [st2 out2].
Qed.

Lemma run_keys trace st :
  JsMap.keys (rooms st) `prefix_of` JsMap.keys (rooms (run trace st).1).
Proof.
  revert st. induction trace as [|[id req] trace IH]; intros st.
  - reflexivity.
  - rewrite run_cons. cbn [fst]. etrans; [apply (step_keys id req)|apply IH].
Qed.

(** C8: a name in the registry stays in it through every later
    sequence of connections, [createRoom], [joinRoom], [sendMessage]
    and disconnections, and the list of names only grows at its end; a
    disconnection leaves the list as it is, also for a room that loses
    its last member. *)
Theorem rooms_never_removed (st : Server) (trace : list (string * request)) :
  JsMap.keys (rooms st) `prefix_of` JsMap.keys (rooms (run trace st).1)
  ∧ (∀ k, k ∈ JsMap.keys (rooms st) → k ∈ JsMap.keys (rooms (run trace st).1))
  ∧ (∀ id, JsMap.keys (rooms (disconnect id st).1) = JsMap.keys (rooms st))
  ∧ (∀ id r, JStr r ∈ JsMap.keys (rooms st) → members st r = {[id]} →
       members (disconnect id st).1 r = ∅
       ∧ JStr r ∈ JsMap.keys (rooms (disconnect id st).1)).
Proof.
  assert (∀ id, JsMap.keys (rooms (disconnect id st).1)
                = JsMap.keys (rooms st)) as Hdis.
  { intros id.
    by rewrite disconnect_rooms, (keys_fmap_values (λ u, u ∖ {[id]})). }
  split; [apply run_keys|]. split; [|split; [done|]].
  - intros k Hk. destruct (run_keys trace st) as [l ->].
    apply elem_of_app. by left.
  - intros id r Hr Hm. split; [|by rewrite Hdis].
    rewrite members_disconnect, Hm. apply leibniz_equiv. set_solver.
Qed.

Lemma Forall_alter {V} (P : V → Prop) (f : V → V) k (m : list (jsval * V)) :
  (∀ v, P v → P (f v)) →
  Forall (λ e, P e.2) m → Forall (λ e, P e.2) (JsMap.alter f k m).
Proof.
  intros Hf H. induction H as [|[k' v] m Hv Hm IH]; simpl; [constructor|].
  destruct (same_key k k'); constructor; simpl in *; auto.
Qed.

Lemma Forall_set {V} (P : V → Prop) k v (m : list (jsval * V)) :
  P v → Forall (λ e, P e.2) m → Forall (λ e, P e.2) (JsMap.set k v m).
Proof.
  intros Hv H. unfold JsMap.set. destruct (JsMap.has k m).
  - by apply Forall_alter.
  - apply Forall_app. split; [done|]. by repeat constructor.
Qed.

Lemma step_in_no_room id id' req st :
  id' ≠ id → in_no_room id st → in_no_room id (step id' req st).1.
Proof.
  unfold in_no_room. intros Hne H.
  destruct req as [|a|a|data now|]; simpl.
  - done.
  - unfold createRoom. destruct (JsMap.has (JStr a) (rooms st)); [done|].
    cbn [negb fst].
    match goal with |- context [saveRooms ?s] =>
      destruct (saveRooms_registry s) as (-> & _) end.
    simpl. apply (Forall_alter (λ u, id ∉ u)); [set_solver|].
    apply (Forall_set (λ u, id ∉ u)); [set_solver|done].
  - unfold joinRoom. destruct (JsMap.has (JStr a) (rooms st)); [|done].
    simpl. apply (Forall_alter (λ u, id ∉ u)); [set_solver|done].
  - by destruct (sendMessage_registry data now st) as (-> & _).
  - rewrite disconnect_rooms. apply Forall_fmap.
    eapply Forall_impl; [exact H|]. simpl. set_solver.
Qed.

(** C9: processing the disconnection of session [id] takes [id] out of
    the membership Set of every room and does nothing else to the
    registry: every room keeps its name, its place and its other
    members, and the logs are as before.  Afterwards no membership Set
    contains [id], and none does after any further requests made by
    other sessions: only a session that carries this identifier again
    can put it back. *)
Theorem disconnect_removes_session (st : Server) (id : string)
    (trace : list (string * request)) :
  Forall (λ x, x.1 ≠ id) trace →
  rooms (disconnect id st).1 = (λ e, (e.1, e.2 ∖ {[id]})) <$> rooms st
  ∧ (∀ r, members (disconnect id st).1 r = members st r ∖ {[id]})
  ∧ roomMessages (disconnect id st).1 = roomMessages st
  ∧ in_no_room id (disconnect id st).1
  ∧ in_no_room id (run trace (disconnect id st).1).1
  ∧ ∀ r, id ∉ members (run trace (disconnect id st).1).1 r.
Proof.
  intros Hothers.
  split; [apply disconnect_rooms|].
  split; [intros r; apply members_disconnect|].
  split; [by destruct (disconnect_other_state id st) as (-> & _)|].
  assert (in_no_room id (disconnect id st).1) as H0.
  { unfold in_no_room. rewrite disconnect_rooms. apply Forall_fmap.
    apply Forall_true. simpl. set_solver. }
  assert (in_no_room id (run trace (disconnect id st).1).1) as H1.
  { generalize dependent (disconnect id st).1. clear st.
    induction Hothers as [|[id' req] trace Hne _ IH]; intros st H.
    - done.
    - rewrite run_cons. cbn [fst]. apply IH. by apply step_in_no_room. }
  repeat split; [done..|].
  intros r. unfold members.
  destruct (JsMap.get _ _) as [users|] eqn:E; simpl; [|set_solver].
  apply get_Some_elem in E as [k Hk]. unfold in_no_room in H1.
  rewrite Forall_forall in H1. apply (H1 _ Hk).
Qed.

(** ** Paths of the data files *)

Lemma split_no_slash s : has_slash s = false → split_slash s = [s].
Proof.
  induction s as [|c s IH]; simpl; [done|].
  intros H. apply orb_false_iff in H as [Hc Hs]. rewrite Hc, (IH Hs). done.
Qed.

Lemma has_slash_app s t : has_slash (s +:+ t) = has_slash s || has_slash t.
Proof.
  induction s as [|c s IH]; simpl; [done|]. by rewrite IH, orb_assoc.
Qed.

Lemma length_app_string s t :
  String.length (s +:+ t) = String.length s + String.length t.
Proof. induction s as [|c s IH]; simpl; [done|]. by rewrite IH. Qed.

Lemma app_inj_r s1 s2 t : s1 +:+ t = s2 +:+ t → s1 = s2.
Proof.
  revert s2. induction s1 as [|c s1 IH]; intros [|c' s2] H.
  - done.
  - apply (f_equal String.length) in H.
    rewrite !length_app_string in H. simpl in H. lia.
  - apply (f_equal String.length) in H.
    rewrite !length_app_string in H. simpl in H. lia.
  - cbn [String.append] in H. injection H as -> H. f_equal. by apply IH.
Qed.

Lemma norm_segment_json acc s :
  norm_segment acc (s +:+ ".json") = acc ++ [s +:+ ".json"].
Proof.
  assert (5 ≤ String.length (s +:+ ".json"))%nat as Hlen.
  { rewrite length_app_string. simpl. lia. }
  unfold norm_segment.
  rewrite !bool_decide_eq_false_2; [done|..];
    intros E; rewrite E in Hlen; simpl in Hlen; lia.
Qed.

Lemma MESSAGES_DIR_eq : MESSAGES_DIR = dirname ++ ["storage"; "messages"].
Proof.
  unfold MESSAGES_DIR, STORAGE_DIR, path_join. simpl. unfold norm_segment.
  rewrite !bool_decide_eq_false_2 by done. simpl. by rewrite <- app_assoc.
Qed.

Lemma ROOMS_FILE_eq : ROOMS_FILE = dirname ++ ["storage"; "rooms.json"].
Proof.
  unfold ROOMS_FILE, STORAGE_DIR, path_join. simpl. unfold norm_segment.
  rewrite !bool_decide_eq_false_2 by done. simpl. by rewrite <- app_assoc.
Qed.

Lemma messagesFile_safe k :
  path_safe k = true →
  messagesFile k = MESSAGES_DIR ++ [toString k +:+ ".json"].
Proof.
  destruct k as [s|]; simpl; [|done]. intros Hs.
  apply negb_true_iff in Hs.
  unfold messagesFile, path_join. simpl.
  rewrite split_no_slash by (by rewrite has_slash_app, Hs).
  simpl. apply norm_segment_json.
Qed.

Lemma messagesFile_parent k :
  path_safe k = true → parent (messagesFile k) = MESSAGES_DIR.
Proof.
  intros Hs. rewrite (messagesFile_safe _ Hs). apply removelast_last.
Qed.

Lemma messagesFile_inj k k' :
  path_safe k = true → path_safe k' = true →
  messagesFile k = messagesFile k' → k = k'.
Proof.
  intros Hk Hk'. rewrite (messagesFile_safe _ Hk), (messagesFile_safe _ Hk').
  intros H. apply app_inv_head in H. injection H as H.
  apply app_inj_r in H. destruct k, k'; simpl in *; congruence.
Qed.

Lemma messagesFile_not_rooms k :
  path_safe k = true → messagesFile k ≠ ROOMS_FILE.
Proof.
  intros Hk. rewrite (messagesFile_safe _ Hk), MESSAGES_DIR_eq, ROOMS_FILE_eq.
  intros H. apply (f_equal length) in H. rewrite !length_app in H.
  simpl in H. lia.
Qed.

(** A name without a slash whose file name is not too long can be saved
    as soon as the messages directory exists and no directory bears the
    file's name. *)
Lemma writable_safe fs k :
  path_safe k = true →
  (String.length (toString k +:+ ".json") ≤ NAME_MAX)%nat →
  MESSAGES_DIR ∈ dirs fs → messagesFile k ∉ dirs fs →
  writable fs (messagesFile k) = true.
Proof.
  intros Hk Hlen Hd Hf. unfold writable. rewrite (messagesFile_parent _ Hk).
  rewrite (messagesFile_safe _ Hk) in *. rewrite last_snoc. simpl.
  rewrite (bool_decide_eq_true_2 _ Hd), (bool_decide_eq_false_2 _ Hf).
  by rewrite (bool_decide_eq_true_2 _ Hlen).
Qed.

Lemma saveMessages_disk roomName st :
  let f := messagesFile (JStr roomName) in
  let messages :=
    default [] (JsMap.get (JStr roomName) (roomMessages st)) in
  dirs (disk (saveMessages roomName st)) = dirs (disk st)
  ∧ (writable (disk st) f = true →
       files (disk (saveMessages roomName st)) = <[f := messages]> (files (disk st)))
  ∧ (writable (disk st) f = false → disk (saveMessages roomName st) = disk st).
Proof.
  unfold saveMessages, writeFileSync.
  destruct (writable (disk st) (messagesFile (JStr roomName))); by simpl.
Qed.

(** C10, as the code has it: a [sendMessage] with non-empty room,
    message and username for a name the registry does not hold appends
    the message to the log kept under that name (a new log when there
    is none) and writes that log to the name's message file when the
    file can be written; when it cannot, the disk stays as it was and the
    message is in memory only.  The list of room names is unchanged and
    does not contain the name, the only emission goes to the socket.io
    room of that name, and no session receives it other than one whose
    own id is the name. *)
Theorem sendMessage_unknown_room (st : Server) (r m u now : string) :
  reachable st →
  r ≠ "" → m ≠ "" → u ≠ "" →
  JStr r ∉ JsMap.keys (rooms st) →
  let res := sendMessage (Payload (Some r) (Some m) (Some u)) now st in
  let messageData := MessageData u m now in
  let log :=
    default [] (JsMap.get (JStr r) (roomMessages st)) ++ [JObj messageData] in
  JsMap.get (JStr r) (roomMessages res.1) = Some log
  ∧ (writable (disk st) (messagesFile (JStr r)) = true →
       files (disk res.1) !! messagesFile (JStr r) = Some log)
  ∧ (writable (disk st) (messagesFile (JStr r)) = false →
       disk res.1 = disk st)
  ∧ JsMap.keys (rooms res.1) = JsMap.keys (rooms st)
  ∧ (JStr r ∉ JsMap.keys (rooms res.1))
  ∧ res.2 = [Emit (sockets_in (adapter st) r) (Message messageData)]
  ∧ ∀ id, id ≠ r → received id res.2 = [].
Proof.
  intros Hreach Hr Hm Hu Hnew res messageData log.
  destruct (sendMessage_registry (Payload (Some r) (Some m) (Some u)) now st)
    as (Hrooms & _ & _).
  fold res in Hrooms. rewrite Hrooms.
  subst res. rewrite (sendMessage_valid _ _ _ _ _ Hr Hm Hu). cbn [fst snd].
  fold messageData. fold log.
  set (st1 := with_roomMessages
                (JsMap.set (JStr r) log (roomMessages st)) st).
  destruct (saveMessages_registry r st1) as (_ & Hms & _ & _).
  destruct (saveMessages_disk r st1) as (_ & Hw & Hnw).
  assert (default [] (JsMap.get (JStr r) (roomMessages st1)) = log) as Hlog.
  { subst st1. simpl. by rewrite get_set_same. }
  rewrite Hlog in Hw.
  split; [rewrite Hms; subst st1; apply get_set_same|].
  split; [intros H; rewrite (Hw H); apply lookup_insert_eq|].
  split; [exact Hnw|].
  do 3 (split; [done|]).
  intros id Hne. rewrite received_cons. cbn [dest].
  rewrite bool_decide_eq_false_2; [done|].
  intros Hin. destruct (reachable_consistent _ Hreach) as [_ Hadp].
  destruct (Hadp _ _ Hin) as [_ [?|Hmem]]; [done|].
  unfold members in Hmem. apply get_None_not_key in Hnew.
  rewrite Hnew in Hmem. set_solver.
Qed.

(** ** Saving and restarting *)

Lemma writable_dirs fs fs' p :
  dirs fs = dirs fs' → writable fs p = writable fs' p.
Proof. unfold writable. by intros ->. Qed.

Lemma save_each_spec l st :
  Forall (λ k, path_safe k = true
               ∧ writable (disk st) (messagesFile k) = true) l →
  rooms (save_each l st) = rooms st
  ∧ roomMessages (save_each l st) = roomMessages st
  ∧ dirs (disk (save_each l st)) = dirs (disk st)
  ∧ (∀ p, Forall (λ k, messagesFile k ≠ p) l →
          files (disk (save_each l st)) !! p = files (disk st) !! p)
  ∧ (∀ k, k ∈ l →
          files (disk (save_each l st)) !! messagesFile k
          = Some (default [] (JsMap.get k (roomMessages st)))).
Proof.
  revert st. induction l as [|k rest IH]; intros st Hl.
  - simpl. do 4 (split; [done|]). intros k Hk. by apply elem_of_nil in Hk.
  - apply Forall_cons in Hl as [[Hsafe Hw] Hrest].
    destruct k as [a|]; [|done].
    change (save_each (JStr a :: rest) st)
      with (save_each rest (saveMessages a st)).
    destruct (saveMessages_registry a st) as (Hr1 & Hm1 & _ & _).
    destruct (saveMessages_disk a st) as (Hd1 & Hf1 & _).
    specialize (Hf1 Hw).
    destruct (IH (saveMessages a st)) as (Hr & Hm & Hd & Hkeep & Hput).
    { eapply Forall_impl; [exact Hrest|]. intros k [? ?]. split; [done|].
      by rewrite (writable_dirs _ (disk st)). }
    rewrite Hr, Hm, Hd, Hr1, Hm1, Hd1. do 3 (split; [done|]). split.
    + intros p Hp. apply Forall_cons in Hp as [Hpa Hp].
      rewrite (Hkeep _ Hp), Hf1. by apply lookup_insert_ne.
    + intros k Hk. destruct (decide (k ∈ rest)) as [Hin|Hout].
      * rewrite (Hput _ Hin). by rewrite Hm1.
      * apply elem_of_cons in Hk as [->|?]; [|done].
        rewrite Hkeep, Hf1; [apply lookup_insert_eq|].
        rewrite Forall_forall in Hrest. apply Forall_forall.
        intros k' Hk' E. destruct (Hrest _ Hk') as [Hsafe' _].
        apply messagesFile_inj in E; [|done..]. by subst.
Qed.

Lemma load_rooms_saved fs (log : jsval → list jsval) l r rm :
  NoDup l →
  Forall (λ k, path_safe k = true
               ∧ (k ∉ JsMap.keys r) ∧ (k ∉ JsMap.keys rm)
               ∧ (messagesFile k ∉ dirs fs)
               ∧ files fs !! messagesFile k = Some (log k)) l →
  load_rooms fs l r rm
  = (r ++ ((λ k, (k, ∅)) <$> l), rm ++ ((λ k, (k, log k)) <$> l)).
Proof.
  revert r rm. induction l as [|k rest IH]; intros r rm Hnd Hl.
  - simpl. by rewrite !app_nil_r.
  - apply NoDup_cons in Hnd as [Hk Hnd].
    apply Forall_cons in Hl as [(Hsafe & Hr & Hrm & Hdir & Hfile) Hrest].
    destruct k as [a|]; [|done]. cbn [load_rooms].
    unfold existsSync, readFileSync.
    rewrite (bool_decide_eq_false_2 _ Hdir), Hfile.
    rewrite bool_decide_eq_true_2 by eauto. cbn [orb].
    unfold JsMap.set. rewrite (has_not_key _ _ Hr), (has_not_key _ _ Hrm).
    rewrite IH; [by rewrite <- !app_assoc|done|].
    rewrite Forall_forall in Hrest. apply Forall_forall.
    intros k' Hk'. destruct (Hrest _ Hk') as (? & ? & ? & ? & ?).
    unfold JsMap.keys. rewrite !fmap_app. simpl.
    repeat split; try done;
      rewrite elem_of_app, list_elem_of_singleton; intros [?| ->]; done.
Qed.

Lemma load_missing_file fs a savedRooms r rm :
  Forall (λ k, messagesFile k ∉ dirs fs) savedRooms →
  existsSync fs (messagesFile (JStr a)) = false →
  JStr a ∈ savedRooms ∨ JsMap.get (JStr a) rm = Some [] →
  JsMap.get (JStr a) (load_rooms fs savedRooms r rm).2 = Some [].
Proof.
  intros Hdirs Hmiss. revert r rm.
  induction Hdirs as [|k rest Hk _ IH]; intros r rm Hor; simpl.
  - destruct Hor as [Hin|?]; [|done]. by apply elem_of_nil in Hin.
  - destruct (same_key (JStr a) k) eqn:E.
    + apply same_key_true in E. subst k. rewrite Hmiss.
      apply IH. right. apply get_set_same.
    + assert (JStr a ∈ rest ∨ JsMap.get (JStr a) rm = Some []) as Hor'.
      { destruct Hor as [Hin|?]; [|by right].
        apply elem_of_cons in Hin as [<-|?]; [|by left].
        by rewrite same_key_str, bool_decide_eq_true_2 in E. }
      destruct (existsSync fs (messagesFile k)) eqn:Hex.
      * unfold readFileSync. rewrite (bool_decide_eq_false_2 _ Hk).
        unfold existsSync in Hex.
        rewrite (bool_decide_eq_false_2 _ Hk) in Hex. simpl in Hex.
        apply bool_decide_eq_true in Hex as [messages Hfile].
        rewrite Hfile. apply IH. by rewrite get_set_other.
      * apply IH. by rewrite get_set_other.
Qed.

Lemma load_rooms_key fs a savedRooms r rm :
  Forall (λ k, messagesFile k ∉ dirs fs) savedRooms →
  JStr a ∈ savedRooms ∨ JStr a ∈ JsMap.keys r →
  JStr a ∈ JsMap.keys (load_rooms fs savedRooms r rm).1.
Proof.
  intros Hdirs. revert r rm.
  induction Hdirs as [|k rest Hk _ IH]; intros r rm Hor; simpl.
  - destruct Hor as [Hin|?]; [|done]. by apply elem_of_nil in Hin.
  - assert (JStr a ∈ rest ∨ JStr a ∈ JsMap.keys (JsMap.set k ∅ r)) as Hor'.
    { rewrite keys_set.
      destruct Hor as [Hin|?]; [|right; destruct (JsMap.has k r)].
      + apply elem_of_cons in Hin as [<-|?]; [right|by left].
        destruct (JsMap.has (JStr a) r) eqn:E.
        * apply has_true in E.
          destruct (JsMap.get (JStr a) r) eqn:E'; [|by destruct E].
          destruct (decide (JStr a ∈ JsMap.keys r)) as [?|Hn]; [done|].
          apply get_None_not_key in Hn. congruence.
        * apply elem_of_app. right. constructor.
      + done.
      + apply elem_of_app. by left. }
    destruct (existsSync fs (messagesFile k)) eqn:Hex; [|by apply IH].
    unfold readFileSync. rewrite (bool_decide_eq_false_2 _ Hk).
    unfold existsSync in Hex.
    rewrite (bool_decide_eq_false_2 _ Hk) in Hex. simpl in Hex.
    apply bool_decide_eq_true in Hex as [messages Hfile].
    rewrite Hfile. by apply IH.
Qed.

Lemma saveRooms_dirs st : dirs (disk (saveRooms st)) = dirs (disk st).
Proof.
  unfold saveRooms, writeFileSync.
  by destruct (writable (disk st) ROOMS_FILE).
Qed.

(** C7, as the code has it: when the room names are distinct strings
    without a slash and the data files can be written, saving the list
    of names and every room's log and then restarting on that disk
    yields the same names in the same order, each with no member, and
    for each room the log that was saved, in order.  On a disk where no
    directory stands in the place of a listed room's message file, a
    room listed in the rooms file whose message file does not exist is
    loaded with an empty log. *)
Theorem save_restart_roundtrip (st : Server) :
  NoDup (JsMap.keys (rooms st)) →
  Forall (λ k, path_safe k = true
               ∧ writable (disk st) (messagesFile k) = true)
    (JsMap.keys (rooms st)) →
  writable (disk st) ROOMS_FILE = true →
  rooms (restart (saveAll st)) = (λ k, (k, ∅)) <$> JsMap.keys (rooms st)
  ∧ roomMessages (restart (saveAll st))
    = (λ k, (k, default [] (JsMap.get k (roomMessages st))))
        <$> JsMap.keys (rooms st)
  ∧ ∀ fs savedRooms a,
      readFileSync fs ROOMS_FILE = Some savedRooms →
      Forall (λ k, messagesFile k ∉ dirs fs) savedRooms →
      JStr a ∈ savedRooms →
      existsSync fs (messagesFile (JStr a)) = false →
      JStr a ∈ JsMap.keys (rooms (boot fs))
      ∧ JsMap.get (JStr a) (roomMessages (boot fs)) = Some [].
Proof.
  intros Hnd Hsafe Hw.
  assert (Hload : ∀ fs savedRooms,
    readFileSync fs ROOMS_FILE = Some savedRooms →
    boot fs
    = with_roomMessages (load_rooms fs savedRooms [] []).2
        (with_rooms (load_rooms fs savedRooms [] []).1
           (MkServer [] [] fs ∅ ∅))).
  { intros fs savedRooms Hread. unfold boot, loadSavedData. cbn [disk].
    rewrite Hread. unfold readFileSync in Hread. unfold existsSync.
    destruct (bool_decide (ROOMS_FILE ∈ dirs fs)); [done|].
    rewrite bool_decide_eq_true_2 by eauto. simpl.
    by destruct (load_rooms fs savedRooms [] []). }
  assert (Hround : ∀ names, names = JsMap.keys (rooms st) →
    load_rooms (disk (saveAll st)) names [] []
    = ((λ k, (k, ∅)) <$> names,
       (λ k, (k, default [] (JsMap.get k (roomMessages st)))) <$> names)
    ∧ readFileSync (disk (saveAll st)) ROOMS_FILE = Some names).
  { intros names ->. unfold saveAll.
    destruct (saveRooms_registry st) as (Hr1 & Hm1 & _ & _).
    pose proof (saveRooms_dirs st) as Hd1.
    destruct (save_each_spec (JsMap.keys (rooms st)) (saveRooms st))
      as (_ & _ & Hd & Hkeep & Hput).
    { eapply Forall_impl; [exact Hsafe|]. intros k [? ?]. split; [done|].
      by rewrite (writable_dirs _ (disk st)). }
    rewrite Forall_forall in Hsafe.
    assert (∀ p, writable (disk st) p = true →
                 p ∉ dirs (disk (save_each (JsMap.keys (rooms st))
                                    (saveRooms st)))) as Hnodir.
    { intros p Hp. rewrite Hd, Hd1. unfold writable in Hp.
      apply andb_true_iff in Hp as [Hp _].
      apply andb_true_iff in Hp as [_ Hp]. apply negb_true_iff in Hp.
      by apply bool_decide_eq_false in Hp. }
    split.
    - rewrite (load_rooms_saved _
                 (λ k, default [] (JsMap.get k (roomMessages st))));
        [done|done|].
      apply Forall_forall. intros k Hk. destruct (Hsafe _ Hk) as [? ?].
      split; [done|]. do 2 (split; [apply not_elem_of_nil|]).
      split; [by apply Hnodir|]. rewrite (Hput _ Hk). by rewrite Hm1.
    - unfold readFileSync.
      rewrite (bool_decide_eq_false_2 _ (Hnodir _ Hw)), Hkeep.
      + rewrite saveRooms_written by done. done.
      + apply Forall_forall. intros k Hk. destruct (Hsafe _ Hk) as [? _].
        by apply messagesFile_not_rooms. }
  destruct (Hround _ eq_refl) as [Hl Hread].
  unfold restart. rewrite (Hload _ _ Hread), Hl. cbn.
  do 2 (split; [done|]).
  intros fs savedRooms a Hrd Hdirs Hin Hmiss.
  rewrite (Hload _ _ Hrd). cbn. split.
  - apply load_rooms_key; [done|by left].
  - apply load_missing_file; [done|done|by left].
Qed.

(** The handlers write files only: the directories stay as the start-up
    left them, and so does the set of paths that can be written. *)
Lemma step_dirs id req st : dirs (disk (step id req st).1) = dirs (disk st).
Proof.
  destruct req as [|a|a|data now|]; simpl.
  - done.
  - unfold createRoom. destruct (JsMap.has (JStr a) (rooms st)); [done|].
    cbn [negb fst]. by rewrite saveRooms_dirs.
  - unfold joinRoom. by destruct (JsMap.has (JStr a) (rooms st)).
  - unfold sendMessage.
    destruct (falsy (room data) || falsy (message data) || falsy (username data));
      [done|]. cbn [fst].
    match goal with |- context [saveMessages ?r ?s] =>
      destruct (saveMessages_disk r s) as (-> & _) end.
    done.
  - by destruct (disconnect_other_state id st) as (_ & -> & _).
Qed.

Lemma run_writable trace st p :
  writable (disk (run trace st).1) p = writable (disk st) p.
Proof.
  revert st. induction trace as [|[id req] trace IH]; intros st; [done|].
  rewrite run_cons. cbn [fst]. rewrite IH.
  apply writable_dirs, step_dirs.
Qed.

(** ** Reachability of a state given by a trace *)

Lemma reachable_run trace st :
  reachable st → run_enabled trace st → reachable (run trace st).1.
Proof.
  revert st. induction trace as [|[id req] trace IH]; intros st Hst Hen.
  - done.
  - destruct Hen as [Hen Hrest]. rewrite run_cons. cbn [fst].
    apply IH; [|done]. by apply reachable_step.
Qed.
(** * Further properties of the server *)

(** ** Members are connected sockets *)

Lemma step_members_connected id req st :
  enabled id req st →
  Forall (λ e, e.2 ⊆ sockets st) (rooms st) →
  Forall (λ e, e.2 ⊆ sockets (step id req st).1) (rooms (step id req st).1).
Proof.
  intros Hen H. destruct req as [|a|a|data now|]; simpl in *.
  - eapply Forall_impl; [exact H|]. simpl. set_solver.
  - unfold createRoom. destruct (JsMap.has (JStr a) (rooms st)); [done|].
    cbn [negb fst].
    match goal with |- context [saveRooms ?s] =>
      destruct (saveRooms_registry s) as (-> & _ & -> & _) end.
    simpl. apply (Forall_alter (λ u, u ⊆ sockets st)); [set_solver|].
    apply (Forall_set (λ u, u ⊆ sockets st)); [set_solver|done].
  - unfold joinRoom. destruct (JsMap.has (JStr a) (rooms st)); [|done].
    simpl. apply (Forall_alter (λ u, u ⊆ sockets st)); [set_solver|done].
  - by destruct (sendMessage_registry data now st) as (-> & -> & _).
  - destruct (disconnect_other_state id st) as (_ & _ & -> & _).
    rewrite disconnect_rooms. apply Forall_fmap.
    eapply Forall_impl; [exact H|]. simpl. set_solver.
Qed.

Lemma reachable_rooms_connected st :
  reachable st → Forall (λ e, e.2 ⊆ sockets st) (rooms st).
Proof.
  induction 1 as [fs|id req st _ IH Hen].
  - destruct (boot_state fs) as (_ & _ & _ & Hr).
    eapply Forall_impl; [exact Hr|]. simpl. intros e ->. set_solver.
  - by apply step_members_connected.
Qed.

(** X1: in every reachable state, each member of each room is a
    connected socket. *)
Theorem members_are_connected (st : Server) :
  reachable st →
  Forall (λ e, e.2 ⊆ sockets st) (rooms st)
  ∧ ∀ r, members st r ⊆ sockets st.
Proof.
  intros Hreach.
  pose proof (reachable_rooms_connected _ Hreach) as Hall.
  split; [done|]. intros r. unfold members.
  destruct (JsMap.get (JStr r) (rooms st)) as [users|] eqn:E; simpl;
    [|set_solver].
  apply get_Some_elem in E as [k Hk]. rewrite Forall_forall in Hall.
  apply (Hall _ Hk).
Qed.

(** ** Logs only grow *)

Lemma step_log_prefix id req st r :
  JStr r ∈ JsMap.keys (rooms st) →
  room_log st r `prefix_of` room_log (step id req st).1 r.
Proof.
  intros Hr. unfold room_log. destruct req as [|a|a|data now|]; simpl.
  - done.
  - unfold createRoom. destruct (JsMap.has (JStr a) (rooms st)) eqn:Hhas;
      [done|]. cbn [negb fst].
    match goal with |- context [saveRooms ?s] =>
      destruct (saveRooms_registry s) as (_ & -> & _ & _) end.
    simpl. rewrite get_set_other; [done|].
    rewrite same_key_str. apply bool_decide_eq_false_2. intros ->.
    apply has_false, get_None_not_key in Hhas. done.
  - unfold joinRoom. by destruct (JsMap.has (JStr a) (rooms st)).
  - unfold sendMessage.
    destruct (falsy (room data) || falsy (message data) || falsy (username data));
      [done|]. cbn [fst].
    match goal with |- context [saveMessages ?x ?s] =>
      destruct (saveMessages_registry x s) as (_ & -> & _ & _) end.
    simpl. destruct (decide (default "" (room data) = r)) as [->|Hne].
    + rewrite get_set_same. simpl. by apply prefix_app_r.
    + rewrite get_set_other; [done|]. rewrite same_key_str.
      apply bool_decide_eq_false_2. congruence.
  - by destruct (disconnect_other_state id st) as (-> & _).
Qed.

(** X2: the log of a room that is in the registry only ever grows at
    its end: through any sequence of requests the earlier log is a prefix
    of the later one. *)
Theorem log_append_only (st : Server) (trace : list (string * request))
    (r : string) :
  JStr r ∈ JsMap.keys (rooms st) →
  room_log st r `prefix_of` room_log (run trace st).1 r.
Proof.
  revert st. induction trace as [|[id req] trace IH]; intros st Hr.
  - done.
  - rewrite run_cons. cbn [fst].
    etrans; [by apply (step_log_prefix id req)|]. apply IH.
    destruct (step_keys id req st) as [l ->]. apply elem_of_app. by left.
Qed.


(** ** How the handlers compose *)

Lemma saveRooms_other_files st p :
  p ≠ ROOMS_FILE → files (disk (saveRooms st)) !! p = files (disk st) !! p.
Proof.
  intros Hp. unfold saveRooms, writeFileSync.
  destruct (writable (disk st) ROOMS_FILE); [|done].
  simpl. by apply lookup_insert_ne.
Qed.

(** X3: a message sent to a name that is not a room yet is logged, but
    creating the room afterwards starts its log in memory afresh: the
    earlier message is no longer sent to those who join.  When the
    name's message file could be written and is not the rooms file
    itself, that file still holds the earlier message after the room is
    created. *)
Theorem createRoom_resets_log (st : Server) (r m u now id : string) :
  r ≠ "" → m ≠ "" → u ≠ "" →
  JStr r ∉ JsMap.keys (rooms st) →
  let sent := (sendMessage (Payload (Some r) (Some m) (Some u)) now st).1 in
  let created := (createRoom id r sent).1 in
  let log := room_log st r ++ [JObj (MessageData u m now)] in
  room_log sent r = log
  ∧ room_log created r = []
  ∧ (∀ id', JStr r ∈ JsMap.keys (rooms created)
            ∧ PreviousMessages [] ∈ received id' (joinRoom id' r created).2)
  ∧ (writable (disk st) (messagesFile (JStr r)) = true →
     messagesFile (JStr r) ≠ ROOMS_FILE →
     files (disk created) !! messagesFile (JStr r) = Some log).
Proof.
  intros Hr Hm Hu Hnew sent created log.
  assert (JsMap.has (JStr r) (rooms sent) = false) as Hhas.
  { subst sent.
    destruct (sendMessage_registry (Payload (Some r) (Some m) (Some u)) now st)
      as (-> & _). by apply has_not_key. }
  assert (room_log sent r = log) as Hsent.
  { subst sent. unfold room_log at 1.
    rewrite (sendMessage_valid _ _ _ _ _ Hr Hm Hu). cbn [fst].
    match goal with |- context [saveMessages r ?s] =>
      destruct (saveMessages_registry r s) as (_ & -> & _ & _) end.
    simpl. by rewrite get_set_same. }
  assert (roomMessages created = JsMap.set (JStr r) [] (roomMessages sent)
          ∧ ∀ p, p ≠ ROOMS_FILE →
                 files (disk created) !! p = files (disk sent) !! p)
    as [Hcm Hcf].
  { subst created. unfold createRoom. rewrite Hhas. cbn [negb fst].
    match goal with |- context [saveRooms ?s] =>
      destruct (saveRooms_registry s) as (_ & -> & _ & _);
      pose proof (saveRooms_other_files s) as Hf end.
    split; [done|]. intros p Hp. by rewrite Hf. }
  assert (room_log created r = []) as Hcreated.
  { unfold room_log. by rewrite Hcm, get_set_same. }
  split; [done|]. split; [done|]. split.
  - intros id'.
    destruct (createRoom_fresh_state id r sent Hhas) as (_ & _ & Hk & _).
    fold created in Hk.
    assert (JStr r ∈ JsMap.keys (rooms created)) as Hin.
    { rewrite Hk. apply elem_of_app. right. constructor. }
    split; [done|]. unfold joinRoom. rewrite (has_key _ _ Hin).
    cbn [snd]. rewrite received_cons. unfold socket_emit at 1. cbn [dest ev].
    rewrite bool_decide_eq_true_2 by set_solver.
    rewrite received_cons. unfold socket_emit at 1. cbn [dest ev].
    rewrite bool_decide_eq_true_2 by set_solver.
    apply elem_of_cons. right. apply elem_of_cons. left.
    cbn [roomMessages with_rooms with_adapter]. fold (room_log created r).
    by rewrite Hcreated.
  - intros Hw Hne. rewrite (Hcf _ Hne). subst sent.
    rewrite (sendMessage_valid _ _ _ _ _ Hr Hm Hu). cbn [fst].
    match goal with |- context [saveMessages r ?s] =>
      destruct (saveMessages_disk r s) as (_ & Hput & _) end.
    rewrite Hput by done. rewrite lookup_insert_eq. simpl.
    by rewrite get_set_same.
Qed.

Lemma alter_idemp {V} (f : V → V) k (m : list (jsval * V)) :
  (∀ v, f (f v) = f v) →
  JsMap.alter f k (JsMap.alter f k m) = JsMap.alter f k m.
Proof.
  intros Hf. induction m as [|[k' v] m IH]; simpl; [done|].
  destruct (same_key k k') eqn:E; simpl; rewrite E.
  - by rewrite Hf.
  - by rewrite IH.
Qed.

Lemma has_alter {V} (f : V → V) k k' (m : list (jsval * V)) :
  JsMap.has k' (JsMap.alter f k m) = JsMap.has k' m.
Proof.
  unfold JsMap.has. induction m as [|[k'' v] m IH]; simpl; [done|].
  destruct (same_key k k''); simpl; destruct (same_key k' k''); try done.
Qed.

Lemma socket_join_idemp id r a :
  socket_join id r (socket_join id r a) = socket_join id r a.
Proof.
  unfold socket_join at 1. unfold sockets_in at 1.
  unfold socket_join at 1 2. rewrite lookup_insert_eq, insert_insert_eq.
  simpl. unfold socket_join. f_equal. apply leibniz_equiv. set_solver.
Qed.

(** X4: joining a room twice is the same as joining it once: the second
    [joinRoom] leaves the state the first one made and sends the same
    events again (and an absent room is refused both times). *)
Theorem joinRoom_twice (st : Server) (id r : string) :
  (joinRoom id r (joinRoom id r st).1).1 = (joinRoom id r st).1
  ∧ (joinRoom id r (joinRoom id r st).1).2 = (joinRoom id r st).2.
Proof.
  assert (joinRoom id r (joinRoom id r st).1 = joinRoom id r st) as H.
  { unfold joinRoom at 2 3.
    destruct (JsMap.has (JStr r) (rooms st)) eqn:Hhas.
    - cbn [fst]. unfold joinRoom.
      cbn [rooms roomMessages adapter with_rooms with_adapter disk sockets].
      rewrite has_alter, Hhas.
      unfold with_rooms, with_adapter, io_to. simpl.
      rewrite socket_join_idemp, alter_idemp; [done|].
      intros v. apply leibniz_equiv. set_solver.
    - cbn [fst]. unfold joinRoom. by rewrite Hhas. }
  by rewrite H.
Qed.

(** X5: a room is created once: after a [createRoom] for a name, succeeded
    or not, any further [createRoom] for that name changes nothing and
    sends ["Room already exists"] to its caller alone. *)
Theorem createRoom_twice (st : Server) (id id' r : string) :
  createRoom id' r (createRoom id r st).1
  = ((createRoom id r st).1, [socket_emit id' (Error "Room already exists")]).
Proof.
  assert (JsMap.has (JStr r) (rooms (createRoom id r st).1) = true) as Hhas.
  { destruct (JsMap.has (JStr r) (rooms st)) eqn:E.
    - unfold createRoom. by rewrite E.
    - destruct (createRoom_fresh_state id r st E) as (_ & _ & Hk & _).
      apply has_key. rewrite Hk. apply elem_of_app. right. constructor. }
  unfold createRoom at 1. by rewrite Hhas.
Qed.


(** X6: joining a second room does not leave the first: a session that
    joined two rooms is a member of both, and a message sent to the first
    still reaches it. *)
Theorem member_of_two_rooms (st : Server) (id r1 r2 m u now : string) :
  reachable st → id ∈ sockets st →
  JStr r1 ∈ JsMap.keys (rooms st) → JStr r2 ∈ JsMap.keys (rooms st) →
  r1 ≠ "" → m ≠ "" → u ≠ "" →
  let joined := (joinRoom id r2 (joinRoom id r1 st).1).1 in
  id ∈ members joined r1 ∧ id ∈ members joined r2
  ∧ received id
      (sendMessage (Payload (Some r1) (Some m) (Some u)) now joined).2
    = [Message (MessageData u m now)].
Proof.
  intros Hreach Hconn H1 H2 Hr Hm Hu joined.
  set (st1 := (joinRoom id r1 st).1).
  destruct (joinRoom_present_state id r1 st (has_key _ _ H1))
    as (Hs1 & _ & Hk1 & Hm1).
  fold st1 in Hs1, Hk1, Hm1.
  assert (JsMap.has (JStr r2) (rooms st1) = true) as Hhas2.
  { apply has_key. by rewrite Hk1. }
  destruct (joinRoom_present_state id r2 st1 Hhas2) as (_ & _ & _ & Hm2).
  fold joined in Hm2.
  assert (reachable joined) as Hreach2.
  { apply (reachable_step id (JoinRoom r2) st1); [|simpl; by rewrite Hs1].
    by apply (reachable_step id (JoinRoom r1) st). }
  assert (id ∈ members joined r1) as Hin1.
  { rewrite Hm2, Hm1, (bool_decide_eq_true_2 (r1 = r1)) by done.
    case_bool_decide; set_solver. }
  split; [done|]. split.
  - rewrite Hm2, bool_decide_eq_true_2 by done. set_solver.
  - rewrite (sendMessage_valid _ _ _ _ _ Hr Hm Hu). cbn [snd].
    rewrite received_cons. cbn [dest ev].
    rewrite bool_decide_eq_true_2; [done|].
    destruct (reachable_consistent _ Hreach2) as [Hsub _]. by apply Hsub.
Qed.

(** X7: every accepted message rewrites the room's whole log to the
    room's file, when the file can be written: afterwards the file holds
    exactly the log kept in memory, which is the earlier log with the new
    record at its end.  Other rooms' logs, all other files and the room
    registry are untouched. *)
Theorem sendMessage_saves_whole_log (st : Server) (r m u now : string) :
  r ≠ "" → m ≠ "" → u ≠ "" →
  writable (disk st) (messagesFile (JStr r)) = true →
  let st' := (sendMessage (Payload (Some r) (Some m) (Some u)) now st).1 in
  room_log st' r = room_log st r ++ [JObj (MessageData u m now)]
  ∧ files (disk st') !! messagesFile (JStr r) = Some (room_log st' r)
  ∧ (∀ r', r' ≠ r → room_log st' r' = room_log st r')
  ∧ (∀ p, p ≠ messagesFile (JStr r) →
          files (disk st') !! p = files (disk st) !! p)
  ∧ rooms st' = rooms st.
Proof.
  intros Hr Hm Hu Hw st'.
  destruct (sendMessage_registry (Payload (Some r) (Some m) (Some u)) now st)
    as (Hrooms & _ & _).
  fold st' in Hrooms. subst st'. unfold room_log.
  rewrite (sendMessage_valid _ _ _ _ _ Hr Hm Hu) in *. cbn [fst] in *.
  match goal with |- context [saveMessages r ?s] => set (st1 := s) in * end.
  destruct (saveMessages_registry r st1) as (_ & Hms & _ & _).
  destruct (saveMessages_disk r st1) as (_ & Hput & _).
  rewrite Hms, Hput by done. subst st1. simpl.
  rewrite get_set_same. simpl. split; [done|].
  split; [apply lookup_insert_eq|]. split; [|split; [|done]].
  - intros r' Hne. rewrite get_set_other; [done|]. rewrite same_key_str.
    apply bool_decide_eq_false_2. congruence.
  - intros p Hp. by apply lookup_insert_ne.
Qed.

(** ** What a disconnection sends *)

Lemma forEach_room_out id st entries :
  Forall (λ e, ∃ k, e = io_to st k (UserLeft id)) (forEach_room id st entries).2.
Proof.
  induction entries as [|[k users] rest IH]; simpl; [constructor|].
  destruct (forEach_room id st rest) as [rest' out]. simpl in IH.
  case_bool_decide; [|done]. case_bool_decide; [|done].
  simpl. constructor; [by exists k|done].
Qed.

Lemma disconnect_out id st :
  (disconnect id st).2
  = (forEach_room id
       (with_sockets (sockets st ∖ {[id]})
          (with_adapter (leave_all id (adapter st)) st)) (rooms st)).2
    ++ [Emit (sockets st ∖ {[id]}) (RoomList (JsMap.keys (rooms st)))].
Proof.
  unfold disconnect, with_sockets, with_adapter, io_emit. simpl.
  match goal with |- context [forEach_room id ?s ?r] =>
    pose proof (forEach_room_rooms id s r) as H;
    destruct (forEach_room id s r) as [r' out] end.
  simpl in *. subst r'.
  by rewrite (keys_fmap_values (λ u, u ∖ {[id]})).
Qed.

Lemma received_none id out :
  Forall (λ e, id ∉ dest e) out → received id out = [].
Proof.
  induction 1 as [|e out He _ IH]; [done|].
  by rewrite received_cons, (bool_decide_eq_false_2 _ He).
Qed.

Lemma received_filter_none (P : event → bool) id out :
  Forall (λ e, P (ev e) = false) out → filter P (received id out) = [].
Proof.
  induction 1 as [|e out He _ IH]; [done|].
  rewrite received_cons. case_bool_decide; [|done].
  rewrite filter_cons. rewrite He. simpl. apply IH.
Qed.

(** X8: a disconnection sends nothing to the socket that left, and every
    other connected socket receives exactly one room list, with the same
    names as before. *)
Theorem disconnect_emissions (st : Server) (id : string) :
  received id (disconnect id st).2 = []
  ∧ ∀ id', id' ∈ sockets st → id' ≠ id →
      filter is_roomList (received id' (disconnect id st).2)
      = [RoomList (JsMap.keys (rooms st))].
Proof.
  rewrite disconnect_out.
  match goal with |- context [forEach_room id ?s ?r] =>
    pose proof (forEach_room_out id s r) as Hout;
    set (out := (forEach_room id s r).2) in * end.
  split.
  - apply received_none. apply Forall_app. split.
    + eapply Forall_impl; [exact Hout|]. intros e [k ->].
      destruct k as [r|]; simpl; [|set_solver].
      rewrite sockets_in_leave_all. set_solver.
    + repeat constructor. simpl. set_solver.
  - intros id' Hin Hne. rewrite received_app, filter_app.
    rewrite (received_filter_none is_roomList).
    + rewrite received_cons. cbn [dest ev].
      rewrite bool_decide_eq_true_2 by set_solver. done.
    + eapply Forall_impl; [exact Hout|]. intros e [k ->]. by destruct k.
Qed.

(** X9: whenever a handler sends a room list, to one socket or to all,
    the list is the complete list of names in the registry after the
    request, in Map order. *)
Theorem roomList_is_current (st : Server) (id : string) (req : request) :
  ∀ e names, e ∈ (step id req st).2 → ev e = RoomList names →
             names = JsMap.keys (rooms (step id req st).1).
Proof.
  intros e names He Hev. destruct req as [|a|a|data now|]; simpl in *.
  - apply list_elem_of_singleton in He. subst e. simpl in Hev. congruence.
  - unfold createRoom in *.
    destruct (JsMap.has (JStr a) (rooms st)); cbn [negb fst snd] in *.
    + apply list_elem_of_singleton in He. by subst e.
    + match goal with |- context [saveRooms ?s] =>
        destruct (saveRooms_registry s) as (-> & _) end.
      apply elem_of_cons in He as [->|He]; [done|].
      apply list_elem_of_singleton in He. subst e. simpl in *. congruence.
  - unfold joinRoom in *.
    destruct (JsMap.has (JStr a) (rooms st)); cbn [fst snd] in *.
    + repeat (apply elem_of_cons in He as [->|He]; [done|]).
      by apply elem_of_nil in He.
    + apply list_elem_of_singleton in He. by subst e.
  - unfold sendMessage in *.
    destruct (falsy (room data) || falsy (message data) || falsy (username data));
      cbn [fst snd] in *; [by apply elem_of_nil in He|].
    apply list_elem_of_singleton in He. by subst e.
  - rewrite disconnect_rooms, (keys_fmap_values (λ u, u ∖ {[id]})).
    rewrite disconnect_out in He. apply elem_of_app in He as [He|He].
    + pose proof (forEach_room_out id
        (with_sockets (sockets st ∖ {[id]})
           (with_adapter (leave_all id (adapter st)) st)) (rooms st)) as Hout.
      rewrite Forall_forall in Hout. destruct (Hout _ He) as [k ->].
      by destruct k.
    + apply list_elem_of_singleton in He. subst e. simpl in Hev. congruence.
Qed.


(** ** Start-up and the initial load *)

Lemma boot_read fs savedRooms :
  readFileSync fs ROOMS_FILE = Some savedRooms →
  boot fs
  = with_roomMessages (load_rooms fs savedRooms [] []).2
      (with_rooms (load_rooms fs savedRooms [] []).1 (MkServer [] [] fs ∅ ∅)).
Proof.
  intros Hread. unfold boot, loadSavedData. cbn [disk].
  rewrite Hread. unfold readFileSync in Hread. unfold existsSync.
  destruct (bool_decide (ROOMS_FILE ∈ dirs fs)); [done|].
  rewrite bool_decide_eq_true_2 by eauto. simpl.
  by destruct (load_rooms fs savedRooms [] []).
Qed.

Lemma boot_without_rooms_file_aux fs :
  readFileSync fs ROOMS_FILE = None → boot fs = MkServer [] [] fs ∅ ∅.
Proof.
  intros Hread. unfold boot, loadSavedData. cbn [disk]. rewrite Hread.
  by destruct (existsSync fs ROOMS_FILE).
Qed.

(** X10: when the rooms file is missing, or cannot be read because a
    directory bears its name, the server starts with an empty registry
    and an untouched disk, whatever message files lie around; no error
    gets out of the load. *)
Theorem boot_without_rooms_file (fs : FS) :
  (files fs !! ROOMS_FILE = None ∨ ROOMS_FILE ∈ dirs fs) →
  boot fs = MkServer [] [] fs ∅ ∅.
Proof.
  intros H. apply boot_without_rooms_file_aux. unfold readFileSync.
  case_bool_decide; [done|]. by destruct H.
Qed.

Lemma get_object {V} o (m : list (jsval * V)) : JsMap.get (JObj o) m = None.
Proof. induction m as [|[k v] m IH]; simpl; [done|]. by destruct k. Qed.

Lemma set_new_key {V} k (v : V) (m : list (jsval * V)) :
  k ∉ JsMap.keys m → JsMap.set k v m = m ++ [(k, v)].
Proof.
  intros Hk. unfold JsMap.set. destruct k as [a|o].
  - by rewrite (has_not_key _ _ Hk).
  - unfold JsMap.has. by rewrite get_object.
Qed.

Lemma load_rooms_one fs k rest r rm :
  k ∉ JsMap.keys r → k ∉ JsMap.keys rm → messagesFile k ∉ dirs fs →
  load_rooms fs (k :: rest) r rm
  = load_rooms fs rest (r ++ [(k, ∅)])
      (rm ++ [(k, default [] (files fs !! messagesFile k))]).
Proof.
  intros Hr Hrm Hdir. cbn [load_rooms]. unfold existsSync, readFileSync.
  rewrite (bool_decide_eq_false_2 _ Hdir), !set_new_key by done. cbn [orb].
  destruct (files fs !! messagesFile k) as [messages|] eqn:E.
  - rewrite bool_decide_eq_true_2 by eauto. by rewrite set_new_key.
  - rewrite bool_decide_eq_false_2 by (by intros [? ?]). done.
Qed.

Lemma load_rooms_files fs l r rm :
  NoDup l →
  Forall (λ k, (k ∉ JsMap.keys r) ∧ (k ∉ JsMap.keys rm)
               ∧ (messagesFile k ∉ dirs fs)) l →
  load_rooms fs l r rm
  = (r ++ ((λ k, (k, ∅)) <$> l),
     rm ++ ((λ k, (k, default [] (files fs !! messagesFile k))) <$> l)).
Proof.
  revert r rm. induction l as [|k rest IH]; intros r rm Hnd Hl.
  - simpl. by rewrite !app_nil_r.
  - apply NoDup_cons in Hnd as [Hk Hnd].
    apply Forall_cons in Hl as [(Hr & Hrm & Hdir) Hrest].
    rewrite load_rooms_one by done.
    rewrite IH; [by rewrite <- !app_assoc|done|].
    rewrite Forall_forall in Hrest. apply Forall_forall.
    intros k' Hk'. destruct (Hrest _ Hk') as (? & ? & ?).
    unfold JsMap.keys. rewrite !fmap_app. simpl.
    repeat split; try done;
      rewrite elem_of_app, list_elem_of_singleton; intros [?| ->]; done.
Qed.

Lemma boot_reads_disk_aux fs names :
  readFileSync fs ROOMS_FILE = Some names →
  NoDup names →
  Forall (λ k, messagesFile k ∉ dirs fs) names →
  rooms (boot fs) = (λ k, (k, ∅)) <$> names
  ∧ roomMessages (boot fs)
    = (λ k, (k, default [] (files fs !! messagesFile k))) <$> names
  ∧ sockets (boot fs) = ∅ ∧ disk (boot fs) = fs.
Proof.
  intros Hread Hnd Hdirs. rewrite (boot_read _ _ Hread).
  rewrite load_rooms_files; [done|done|].
  eapply Forall_impl; [exact Hdirs|]. intros k Hk.
  repeat split; [apply not_elem_of_nil..|done].
Qed.

(** X11: the initial load reads the disk as it is: when the rooms file
    lists distinct names and no directory stands where a message file is
    looked for, the registry after the load holds exactly the listed
    rooms, in the file's order and without members, each with the content
    of its message file as its log, or the empty log when that file does
    not exist. *)
Theorem boot_reads_disk (fs : FS) (names : list jsval) :
  readFileSync fs ROOMS_FILE = Some names →
  NoDup names →
  Forall (λ k, messagesFile k ∉ dirs fs) names →
  rooms (boot fs) = (λ k, (k, ∅)) <$> names
  ∧ roomMessages (boot fs)
    = (λ k, (k, default [] (files fs !! messagesFile k))) <$> names
  ∧ sockets (boot fs) = ∅ ∧ disk (boot fs) = fs.
Proof. apply boot_reads_disk_aux. Qed.

Lemma load_rooms_stop fs pre k post r rm :
  NoDup (pre ++ [k]) →
  Forall (λ k', (k' ∉ JsMap.keys r) ∧ (k' ∉ JsMap.keys rm)
                ∧ (messagesFile k' ∉ dirs fs)) pre →
  k ∉ JsMap.keys r →
  messagesFile k ∈ dirs fs →
  load_rooms fs (pre ++ k :: post) r rm
  = (r ++ ((λ k, (k, ∅)) <$> (pre ++ [k])),
     rm ++ ((λ k, (k, default [] (files fs !! messagesFile k))) <$> pre)).
Proof.
  revert r rm. induction pre as [|k' pre IH]; intros r rm Hnd Hpre Hk Hdir.
  - cbn [app load_rooms]. unfold existsSync, readFileSync.
    rewrite (bool_decide_eq_true_2 _ Hdir). cbn [orb].
    rewrite set_new_key by done. simpl. by rewrite app_nil_r.
  - cbn [app] in Hnd. apply NoDup_cons in Hnd as [Hk' Hnd].
    apply Forall_cons in Hpre as [(Hr & Hrm & Hd) Hpre].
    cbn [app]. rewrite load_rooms_one by done.
    rewrite IH; [by rewrite <- !app_assoc|done| | |done].
    + rewrite Forall_forall in Hpre. apply Forall_forall.
      intros k2 Hk2. destruct (Hpre _ Hk2) as (? & ? & ?).
      unfold JsMap.keys. rewrite !fmap_app. simpl.
      assert (k2 ≠ k') by (intros ->; apply Hk', elem_of_app; by left).
      repeat split; try done;
        rewrite elem_of_app, list_elem_of_singleton; intros [?|?]; done.
    + unfold JsMap.keys. rewrite fmap_app. simpl.
      rewrite elem_of_app, list_elem_of_singleton. intros [?| ->]; [done|].
      apply Hk', elem_of_app. right. constructor.
Qed.

(** X12: a directory standing where a room's message file is looked
    for stops the load at that room: the rooms listed before it are
    loaded with their logs, the room itself is registered without a log,
    and the rooms listed after it are not loaded at all. *)
Theorem boot_stops_at_directory (fs : FS) (pre post : list jsval) (k : jsval) :
  readFileSync fs ROOMS_FILE = Some (pre ++ k :: post) →
  NoDup (pre ++ [k]) →
  Forall (λ k', messagesFile k' ∉ dirs fs) pre →
  messagesFile k ∈ dirs fs →
  rooms (boot fs) = (λ k, (k, ∅)) <$> (pre ++ [k])
  ∧ roomMessages (boot fs)
    = (λ k, (k, default [] (files fs !! messagesFile k))) <$> pre.
Proof.
  intros Hread Hnd Hdirs Hdir. rewrite (boot_read _ _ Hread).
  rewrite load_rooms_stop; [done|done| |apply not_elem_of_nil|done].
  eapply Forall_impl; [exact Hdirs|]. intros k' Hk'.
  repeat split; [apply not_elem_of_nil..|done].
Qed.

Lemma STORAGE_DIR_eq : STORAGE_DIR = dirname ++ ["storage"].
Proof.
  unfold STORAGE_DIR, path_join. simpl. unfold norm_segment.
  by rewrite !bool_decide_eq_false_2.
Qed.

Lemma storage_paths :
  parent STORAGE_DIR = dirname ∧ parent MESSAGES_DIR = STORAGE_DIR
  ∧ parent ROOMS_FILE = STORAGE_DIR
  ∧ MESSAGES_DIR ≠ STORAGE_DIR ∧ ROOMS_FILE ≠ STORAGE_DIR
  ∧ ROOMS_FILE ≠ MESSAGES_DIR.
Proof.
  rewrite MESSAGES_DIR_eq, ROOMS_FILE_eq, STORAGE_DIR_eq. unfold parent.
  change ["storage"; "messages"] with (["storage"] ++ ["messages"]).
  change ["storage"; "rooms.json"] with (["storage"] ++ ["rooms.json"]).
  rewrite !app_assoc, !removelast_last. repeat split.
  - intros H. apply (f_equal length) in H. rewrite !length_app in H.
    simpl in H. lia.
  - intros H. apply (f_equal length) in H. rewrite !length_app in H.
    simpl in H. lia.
  - intros H. by apply app_inv_head in H.
Qed.

(** X13: started in a script directory that holds no storage yet, the
    server makes the storage directory and the messages directory inside
    it, leaves all files alone, and then loads from that disk; with no
    rooms file there it starts with an empty registry whose rooms file
    can be written. *)
Theorem start_creates_storage (fs : FS) :
  dirname ∈ dirs fs →
  existsSync fs STORAGE_DIR = false →
  existsSync fs MESSAGES_DIR = false →
  ∃ fs', start fs = Some (boot fs')
         ∧ dirs fs' = dirs fs ∪ {[STORAGE_DIR]} ∪ {[MESSAGES_DIR]}
         ∧ files fs' = files fs
         ∧ (existsSync fs ROOMS_FILE = false →
            boot fs' = MkServer [] [] fs' ∅ ∅
            ∧ writable fs' ROOMS_FILE = true).
Proof.
  intros Hdir Hs Hm.
  destruct storage_paths as (Hps & Hpm & Hpr & Hms & Hrs & Hrm).
  unfold existsSync in Hs, Hm.
  apply orb_false_iff in Hs as [Hs1 Hs2].
  apply orb_false_iff in Hm as [Hm1 Hm2].
  apply bool_decide_eq_false in Hs1, Hs2, Hm1, Hm2.
  eexists (MkFS (dirs fs ∪ {[STORAGE_DIR]} ∪ {[MESSAGES_DIR]}) (files fs)).
  split; [|split; [done|split; [done|]]].
  - unfold start, ensure_dir, mkdirSync, existsSync.
    rewrite (bool_decide_eq_false_2 _ Hs1), (bool_decide_eq_false_2 _ Hs2).
    rewrite Hps, (bool_decide_eq_true_2 _ Hdir). simpl.
    rewrite (bool_decide_eq_false_2 (MESSAGES_DIR ∈ _)) by set_solver.
    rewrite (bool_decide_eq_false_2 _ Hm2). simpl.
    rewrite Hpm, bool_decide_eq_true_2 by set_solver. done.
  - intros Hr. unfold existsSync in Hr.
    apply orb_false_iff in Hr as [Hr1 Hr2].
    apply bool_decide_eq_false in Hr1, Hr2.
    assert (ROOMS_FILE ∉ dirs fs ∪ {[STORAGE_DIR]} ∪ {[MESSAGES_DIR]})
      as Hnd by set_solver.
    split.
    + apply boot_without_rooms_file_aux. unfold readFileSync. simpl.
      rewrite (bool_decide_eq_false_2 _ Hnd).
      destruct (files fs !! ROOMS_FILE) eqn:E; [|done].
      destruct Hr2. eauto.
    + unfold writable. simpl. rewrite Hpr.
      rewrite (bool_decide_eq_true_2 (STORAGE_DIR ∈ _)) by set_solver.
      rewrite (bool_decide_eq_false_2 _ Hnd).
      rewrite ROOMS_FILE_eq.
      change ["storage"; "rooms.json"] with (["storage"] ++ ["rooms.json"]).
      rewrite app_assoc, last_snoc. reflexivity.
Qed.

(** X14: when a regular file bears the storage directory's name, the
    start-up skips making that directory and fails on making the messages
    directory inside it: the server does not start. *)
Theorem start_fails_on_storage_file (fs : FS) :
  STORAGE_DIR ∉ dirs fs →
  is_Some (files fs !! STORAGE_DIR) →
  existsSync fs MESSAGES_DIR = false →
  start fs = None.
Proof.
  intros Hnd Hfile Hm.
  destruct storage_paths as (_ & Hpm & _).
  assert (existsSync fs STORAGE_DIR = true) as Hs.
  { unfold existsSync. by rewrite (bool_decide_eq_true_2 _ Hfile), orb_true_r. }
  unfold start, ensure_dir. rewrite Hs. simpl. rewrite Hm. simpl.
  unfold mkdirSync. rewrite Hm, Hpm.
  by rewrite (bool_decide_eq_false_2 _ Hnd).
Qed.


Lemma get_fmap_key {V} (g : jsval → V) r (l : list jsval) :
  JStr r ∈ l → JsMap.get (JStr r) ((λ k, (k, g k)) <$> l) = Some (g (JStr r)).
Proof.
  induction l as [|k l IH]; intros Hin; [by apply elem_of_nil in Hin|].
  simpl. destruct (same_key (JStr r) k) eqn:E.
  - apply same_key_true in E. by subst.
  - apply IH. apply elem_of_cons in Hin as [<-|?]; [|done].
    by rewrite same_key_str, bool_decide_eq_true_2 in E.
Qed.

(** X15: a message accepted for a room that the rooms file lists is
    there after a restart: when the room's name has no slash and its
    message file can be written, the log the restarted server loads for
    the room is the log from before the message with the new record at
    its end. *)
Theorem message_survives_restart (st : Server) (r m u now : string)
    (names : list jsval) :
  r ≠ "" → m ≠ "" → u ≠ "" →
  readFileSync (disk st) ROOMS_FILE = Some names →
  NoDup names →
  Forall (λ k, messagesFile k ∉ dirs (disk st)) names →
  JStr r ∈ names →
  has_slash r = false →
  writable (disk st) (messagesFile (JStr r)) = true →
  let st' := (sendMessage (Payload (Some r) (Some m) (Some u)) now st).1 in
  JsMap.keys (rooms (restart st')) = names
  ∧ room_log (restart st') r
    = room_log st r ++ [JObj (MessageData u m now)].
Proof.
  intros Hr Hm Hu Hread Hnd Hdirs Hin Hslash Hw st'.
  assert (path_safe (JStr r) = true) as Hsafe by (simpl; by rewrite Hslash).
  assert (dirs (disk st') = dirs (disk st)
          ∧ files (disk st')
            = <[messagesFile (JStr r) :=
                  room_log st r ++ [JObj (MessageData u m now)]]>
                (files (disk st))) as [Hd Hf].
  { subst st'. rewrite (sendMessage_valid _ _ _ _ _ Hr Hm Hu). cbn [fst].
    match goal with |- context [saveMessages r ?s] =>
      destruct (saveMessages_disk r s) as (Hd & Hput & _) end.
    rewrite Hd, Hput by done. simpl. by rewrite get_set_same. }
  assert (readFileSync (disk st') ROOMS_FILE = Some names) as Hread'.
  { unfold readFileSync in *. rewrite Hd, Hf.
    destruct (bool_decide (ROOMS_FILE ∈ dirs (disk st))); [done|].
    rewrite lookup_insert_ne; [done|]. by apply messagesFile_not_rooms. }
  unfold restart.
  destruct (boot_reads_disk_aux (disk st') names) as (Hrooms & Hlogs & _);
    [done|done|by rewrite Hd|].
  split.
  - rewrite Hrooms. unfold JsMap.keys. rewrite <- list_fmap_compose.
    by rewrite list_fmap_id.
  - unfold room_log at 1. rewrite Hlogs.
    rewrite (get_fmap_key
               (λ k, default [] (files (disk st') !! messagesFile k))) by done.
    simpl. by rewrite Hf, lookup_insert_eq.
Qed.

(** ** Maps keep their keys apart *)

Lemma same_key_sym a b : same_key a b = same_key b a.
Proof.
  destruct a, b; unfold same_key; try done.
  apply bool_decide_ext. naive_solver.
Qed.

Lemma get_alter_None {V} (f : V → V) k k' (m : list (jsval * V)) :
  JsMap.get k' m = None → JsMap.get k' (JsMap.alter f k m) = None.
Proof.
  intros H. apply has_false. rewrite has_alter. by apply has_false.
Qed.

Lemma unique_alter {V} (f : V → V) k (m : list (jsval * V)) :
  unique_keys m → unique_keys (JsMap.alter f k m).
Proof.
  induction m as [|[k' v] m IH]; simpl; [done|]. intros [Hk Hm].
  destruct (same_key k k'); simpl; [done|].
  split; [by apply get_alter_None|by apply IH].
Qed.

Lemma unique_app_new {V} k (v : V) (m : list (jsval * V)) :
  unique_keys m → JsMap.get k m = None → unique_keys (m ++ [(k, v)]).
Proof.
  induction m as [|[k' v'] m IH]; simpl; [done|]. intros [Hk Hm] Hget.
  destruct (same_key k k') eqn:E; [done|]. split; [|by apply IH].
  rewrite (get_app_not_found _ _ _ Hk). simpl.
  by rewrite same_key_sym, E.
Qed.

Lemma unique_set {V} k (v : V) (m : list (jsval * V)) :
  unique_keys m → unique_keys (JsMap.set k v m).
Proof.
  intros H. unfold JsMap.set. destruct (JsMap.has k m) eqn:E.
  - by apply unique_alter.
  - apply unique_app_new; [done|]. by apply has_false.
Qed.

Lemma unique_fmap_values {V} (f : V → V) (m : list (jsval * V)) :
  unique_keys m → unique_keys ((λ e, (e.1, f e.2)) <$> m).
Proof.
  induction m as [|[k v] m IH]; simpl; [done|]. intros [Hk Hm].
  split; [|by apply IH]. by rewrite (get_fmap_values f), Hk.
Qed.

Lemma unique_get {V} r (v : V) (m : list (jsval * V)) :
  unique_keys m → (JStr r, v) ∈ m → JsMap.get (JStr r) m = Some v.
Proof.
  induction m as [|[k' v'] m IH]; simpl; intros Hu Hin;
    [by apply elem_of_nil in Hin|].
  destruct Hu as [Hk Hm].
  apply elem_of_cons in Hin as [[= <- <-]|Hin].
  - by rewrite same_key_str, bool_decide_eq_true_2.
  - specialize (IH Hm Hin). destruct (same_key (JStr r) k') eqn:E; [|done].
    apply same_key_true in E. subst k'. congruence.
Qed.

Lemma load_rooms_unique fs savedRooms r rm :
  unique_keys r → unique_keys (load_rooms fs savedRooms r rm).1.
Proof.
  revert r rm. induction savedRooms as [|k rest IH]; intros r rm H; simpl.
  - done.
  - destruct (existsSync fs (messagesFile k)).
    + destruct (readFileSync fs (messagesFile k)).
      * by apply IH, unique_set.
      * by apply unique_set.
    + by apply IH, unique_set.
Qed.

Lemma reachable_unique_keys st : reachable st → unique_keys (rooms st).
Proof.
  induction 1 as [fs|id req st _ IH Hen].
  - unfold boot, loadSavedData. simpl.
    destruct (existsSync fs ROOMS_FILE); [|done].
    destruct (readFileSync fs ROOMS_FILE) as [saved|]; [|done].
    pose proof (load_rooms_unique fs saved [] [] I) as H.
    by destruct (load_rooms fs saved [] []).
  - destruct req as [|a|a|data now|]; simpl.
    + done.
    + unfold createRoom. destruct (JsMap.has (JStr a) (rooms st)); [done|].
      cbn [negb fst].
      match goal with |- context [saveRooms ?s] =>
        destruct (saveRooms_registry s) as (-> & _) end.
      simpl. by apply unique_alter, unique_set.
    + unfold joinRoom. destruct (JsMap.has (JStr a) (rooms st)); [|done].
      simpl. by apply unique_alter.
    + by destruct (sendMessage_registry data now st) as (-> & _).
    + rewrite disconnect_rooms.
      by apply (unique_fmap_values (λ u, u ∖ {[id]})).
Qed.

Lemma forEach_room_out_entry id st entries :
  Forall (λ e, ∃ k users, (k, users) ∈ entries ∧ id ∈ users
                          ∧ size (users ∖ {[id]}) = 0
                          ∧ e = io_to st k (UserLeft id))
    (forEach_room id st entries).2.
Proof.
  induction entries as [|[k users] rest IH]; simpl; [constructor|].
  destruct (forEach_room id st rest) as [rest' out]. simpl in IH.
  assert (Forall (λ e, ∃ k0 users0, (k0, users0) ∈ (k, users) :: rest
                        ∧ id ∈ users0 ∧ size (users0 ∖ {[id]}) = 0
                        ∧ e = io_to st k0 (UserLeft id)) out) as Hout.
  { eapply Forall_impl; [exact IH|]. intros e (k0 & u0 & ? & ? & ? & ?).
    exists k0, u0. repeat split; try done. by constructor. }
  case_bool_decide as Hin; [|done]. case_bool_decide as Hsize; [|done].
  simpl. constructor; [|done]. exists k, users. repeat split; try done.
  constructor.
Qed.

(** X16: in a reachable state, a disconnection delivers [userLeft] to no
    session, except possibly one whose own id is the name of a room: the
    notification is only sent for a room the leaving session was the last
    member of, and by then nobody is left in it. *)
Theorem userLeft_reaches_nobody (st : Server) (id id' : string) :
  reachable st →
  JStr id' ∉ JsMap.keys (rooms st) →
  filter is_userLeft (received id' (disconnect id st).2) = [].
Proof.
  intros Hreach Hname. rewrite disconnect_out, received_app, filter_app.
  set (st1 := with_sockets (sockets st ∖ {[id]})
                (with_adapter (leave_all id (adapter st)) st)).
  rewrite (received_filter_none is_userLeft id' [_]) by (by repeat constructor).
  rewrite app_nil_r.
  rewrite (received_none id'); [done|].
  eapply Forall_impl; [apply forEach_room_out_entry|].
  intros e (k & users & Hentry & Hin & Hsize & ->).
  destruct k as [r|o]; simpl; [|set_solver].
  rewrite sockets_in_leave_all. intros Hdest.
  apply elem_of_difference in Hdest as [Hdest Hne].
  destruct (reachable_consistent _ Hreach) as [_ Hadp].
  destruct (Hadp _ _ Hdest) as [_ [->|Hmem]].
  - apply Hname. unfold JsMap.keys.
    apply (list_elem_of_fmap_2 fst) in Hentry. exact Hentry.
  - unfold members in Hmem.
    rewrite (unique_get _ _ _ (reachable_unique_keys _ Hreach) Hentry) in Hmem.
    simpl in Hmem. apply size_empty_inv in Hsize. set_solver.
Qed.


(** * The client against the server *)

Lemma truthy_ne s : Chat.truthy s = true ↔ s ≠ "".
Proof.
  unfold Chat.truthy. rewrite negb_true_iff, bool_decide_eq_false. done.
Qed.

(** X17: whatever its form holds, the message the component emits is one
    the server accepts: the server appends a record with the client's
    user name and text to the log of the client's current room; and the
    component clears its message field. *)
Theorem client_message_accepted (c : Chat.state) (data : message_payload)
    (now : string) (st : Server) :
  Chat.EmitSendMessage data ∈ (Chat.sendMessage c).2 →
  room_log (sendMessage data now st).1 (Chat.currentRoom c)
  = room_log st (Chat.currentRoom c)
    ++ [JObj (MessageData (Chat.username c) (Chat.message c) now)]
  ∧ Chat.message (Chat.sendMessage c).1 = "".
Proof.
  unfold Chat.sendMessage.
  destruct (Chat.truthy (Chat.message c)) eqn:Hm;
    [|intros H; by apply elem_of_nil in H].
  destruct (Chat.truthy (Chat.currentRoom c)) eqn:Hr;
    [|intros H; by apply elem_of_nil in H].
  destruct (Chat.truthy (Chat.username c)) eqn:Hu;
    [|intros H; by apply elem_of_nil in H].
  cbn [andb fst snd]. intros H. apply list_elem_of_singleton in H.
  injection H as ->. apply truthy_ne in Hm, Hr, Hu.
  split; [|done]. unfold room_log.
  rewrite (sendMessage_valid _ _ _ _ _ Hr Hm Hu). cbn [fst].
  match goal with |- context [saveMessages ?r ?s] =>
    destruct (saveMessages_registry r s) as (_ & -> & _ & _) end.
  simpl. by rewrite get_set_same.
Qed.

Lemma joinRoom_caller_receives id r st :
  JsMap.has (JStr r) (rooms st) = true →
  received id (joinRoom id r st).2
  = [RoomJoined r; PreviousMessages (room_log st r); UserJoined id].
Proof.
  intros Hhas. unfold joinRoom. rewrite Hhas.
  cbn [snd socket_emit io_to adapter with_adapter with_rooms roomMessages].
  rewrite !received_cons. cbn [dest ev].
  rewrite !bool_decide_eq_true_2; [done| |set_solver|set_solver].
  apply sockets_in_join. by right.
Qed.

Lemma deliver_app events1 events2 c :
  Chat.deliver (events1 ++ events2) c
  = Chat.deliver events2 (Chat.deliver events1 c).
Proof. unfold Chat.deliver. apply fold_left_app. Qed.

Lemma sends_view id r msgs st c :
  r ≠ "" →
  Forall (λ x, x.1.1.2 ≠ "" ∧ x.1.2 ≠ "") msgs →
  consistent st → id ∈ members st r →
  Chat.messages c = room_log st r →
  Chat.messages (Chat.deliver (received id (run (sends r msgs) st).2) c)
  = room_log (run (sends r msgs) st).1 r.
Proof.
  intros Hr Hmsgs. revert st c.
  induction Hmsgs as [|[[[sender m] u] now] msgs [Hm Hu] _ IH];
    intros st c Hcons Hin Hview; [done|].
  simpl in Hm, Hu. unfold sends. rewrite fmap_cons. fold (sends r msgs).
  rewrite run_cons. cbn [fst snd step].
  rewrite received_app, deliver_app.
  destruct (sendMessage_registry (Payload (Some r) (Some m) (Some u)) now st)
    as (Hrs & Hss & Has).
  set (st' := (sendMessage (Payload (Some r) (Some m) (Some u)) now st).1)
    in *.
  apply IH.
  - unfold consistent, members. rewrite Hrs, Hss, Has. exact Hcons.
  - unfold members. by rewrite Hrs.
  - subst st'. unfold room_log.
    rewrite (sendMessage_valid _ _ _ _ _ Hr Hm Hu). cbn [fst snd].
    match goal with |- context [saveMessages r ?s] =>
      destruct (saveMessages_registry r s) as (_ & -> & _ & _) end.
    simpl. rewrite get_set_same. simpl.
    rewrite received_cons. cbn [dest ev].
    destruct Hcons as [Hsub _].
    rewrite bool_decide_eq_true_2 by (by apply Hsub).
    simpl. by rewrite Hview.
Qed.

(** X18: what a client shows is the room's log: after its session has
    joined a room and any number of accepted messages have been sent to
    that room since, the message list of the component, fed with the
    events the session received, equals the log the server keeps for the
    room. *)
Theorem client_view_is_log (c : Chat.state) (st : Server) (id r : string)
    (msgs : list (string * string * string * string)) :
  reachable st → id ∈ sockets st →
  JStr r ∈ JsMap.keys (rooms st) → r ≠ "" →
  Forall (λ x, x.1.1.2 ≠ "" ∧ x.1.2 ≠ "") msgs →
  let res := run ((id, JoinRoom r) :: sends r msgs) st in
  Chat.messages (Chat.deliver (received id res.2) c) = room_log res.1 r.
Proof.
  intros Hreach Hconn Hin Hr Hmsgs res. subst res.
  pose proof (has_key _ _ Hin) as Hhas.
  rewrite run_cons. cbn [fst snd step].
  rewrite received_app, deliver_app.
  destruct (joinRoom_present_state id r st Hhas) as (_ & _ & _ & Hmem).
  apply sends_view; [done|done| | |].
  - apply (consistent_step id (JoinRoom r) st); [|done].
    by apply reachable_consistent.
  - rewrite Hmem, bool_decide_eq_true_2 by done. set_solver.
  - rewrite (joinRoom_caller_receives _ _ _ Hhas). simpl.
    unfold room_log, joinRoom. by rewrite Hhas.
Qed.

(** X19: pressing Create Room for a name that is already a room: the
    component emits [createRoom] and, because its current room changed,
    [joinRoom] for the same name.  The server refuses the first and
    accepts the second, so the session ends up a member of the room and
    the component shows the room's log together with the error
    ["Room already exists"]. *)
Theorem client_creates_existing_room (c : Chat.state) (st : Server)
    (id now : string) :
  reachable st → id ∈ sockets st →
  Chat.username c ≠ "" → Chat.room c ≠ "" →
  Chat.currentRoom c ≠ Chat.room c →
  JStr (Chat.room c) ∈ JsMap.keys (rooms st) →
  let r := Chat.room c in
  let clicked := Chat.click Chat.createRoom c in
  let res := run (requests_of id now clicked.2) st in
  let shown := Chat.deliver (received id res.2) clicked.1 in
  clicked.2 = [Chat.EmitCreateRoom r; Chat.EmitJoinRoom r]
  ∧ id ∈ members res.1 r
  ∧ Chat.currentRoom shown = r
  ∧ Chat.error shown = "Room already exists"
  ∧ Chat.messages shown = room_log st r.
Proof.
  intros Hreach Hconn Hu Hr Hcur Hin r clicked res shown.
  pose proof (has_key _ _ Hin) as Hhas.
  assert (clicked
          = (({| Chat.username := Chat.username c;
                 Chat.tempUsername := Chat.tempUsername c;
                 Chat.room := r; Chat.message := Chat.message c;
                 Chat.messages := Chat.messages c;
                 Chat.rooms := Chat.rooms c;
                 Chat.currentRoom := r; Chat.error := "";
                 Chat.localStorage :=
                   <["currentRoom" := r]> (Chat.localStorage c) |}),
             [Chat.EmitCreateRoom r; Chat.EmitJoinRoom r])) as Hclick.
  { subst clicked. unfold Chat.click, Chat.createRoom.
    apply truthy_ne in Hu, Hr. fold r in Hr. fold r. rewrite Hu, Hr.
    cbn [andb]. unfold Chat.rendered, Chat.effect. cbn [Chat.currentRoom].
    rewrite bool_decide_eq_false_2 by done. by rewrite Hr. }
  subst shown res. rewrite Hclick. cbn [fst snd].
  unfold requests_of. cbn [fmap list_fmap to_request].
  rewrite !run_cons. cbn [run fst snd step]. rewrite app_nil_r.
  assert (createRoom id r st = (st, [socket_emit id (Error "Room already exists")]))
    as Hcreate.
  { unfold createRoom, r. by rewrite Hhas. }
  rewrite Hcreate. cbn [fst snd].
  destruct (joinRoom_present_state id r st Hhas) as (_ & _ & _ & Hmem).
  split; [done|]. split.
  { rewrite Hmem, bool_decide_eq_true_2 by done. set_solver. }
  rewrite received_app, (joinRoom_caller_receives _ _ _ Hhas).
  rewrite received_cons. unfold socket_emit. cbn [dest ev].
  rewrite bool_decide_eq_true_2 by set_solver. done.
Qed.


(** ** Sessions that are not members *)

(** X20: the server does not ask that the sender of a message be in the
    room: a message from a session outside the room is logged and reaches
    every member, while its sender, being neither a member nor the
    socket the room is named after, receives nothing. *)
Theorem sendMessage_from_outside (st : Server) (id id1 r m u now : string) :
  reachable st →
  r ≠ "" → m ≠ "" → u ≠ "" →
  id1 ∈ members st r →
  id ∉ members st r → id ≠ r →
  let res := step id (SendMessage (Payload (Some r) (Some m) (Some u)) now) st in
  received id1 res.2 = [Message (MessageData u m now)]
  ∧ received id res.2 = []
  ∧ room_log res.1 r = room_log st r ++ [JObj (MessageData u m now)].
Proof.
  intros Hreach Hr Hm Hu Hin Hout Hne res. subst res. cbn [step].
  destruct (reachable_consistent _ Hreach) as [Hsub Hadp].
  unfold room_log. rewrite (sendMessage_valid _ _ _ _ _ Hr Hm Hu).
  cbn [fst snd]. rewrite !received_cons. cbn [dest ev].
  rewrite (bool_decide_eq_true_2 (id1 ∈ _)) by (by apply Hsub).
  rewrite (bool_decide_eq_false_2 (id ∈ _)).
  2:{ intros Hx. destruct (Hadp _ _ Hx) as [_ [?|?]]; done. }
  repeat split; [done..|].
  match goal with |- context [saveMessages r ?s] =>
    destruct (saveMessages_registry r s) as (_ & -> & _ & _) end.
  simpl. by rewrite get_set_same.
Qed.

(** X21: a session starts outside every room: when a socket that was
    not connected connects in a reachable state, it is a member of no
    room, it alone is sent something, namely one room list with the
    current names, and the registry is as before. *)
Theorem connection_starts_roomless (st : Server) (id : string) :
  reachable st → id ∉ sockets st →
  in_no_room id (connection id st).1
  ∧ (connection id st).2
    = [Emit {[id]} (RoomList (JsMap.keys (rooms st)))]
  ∧ rooms (connection id st).1 = rooms st
  ∧ roomMessages (connection id st).1 = roomMessages st
  ∧ disk (connection id st).1 = disk st.
Proof.
  intros Hreach Hnew. split; [|done].
  unfold in_no_room. simpl.
  eapply Forall_impl; [by apply reachable_rooms_connected|].
  simpl. set_solver.
Qed.

End server.

(** * Worked examples on the sample installation *)

(** Started in a directory that holds nothing yet, the server makes the
    two storage directories and has no room. *)
Lemma start_bare_installation :
  start sample_dirname (MkFS {[ sample_dirname ]} ∅)
  = Some (boot sample_dirname (fresh_disk sample_dirname))
  ∧ rooms (boot sample_dirname (fresh_disk sample_dirname)) = []
  ∧ writable (fresh_disk sample_dirname) (ROOMS_FILE sample_dirname) = true.
Proof. repeat split; vm_compute; done. Qed.

Lemma two_in_general_reachable :
  reachable sample_dirname (two_in_general sample_dirname).
Proof.
  unfold two_in_general. apply reachable_run; [apply reachable_boot|].
  compute_done.
Qed.

(** B creates the new room ["random"]; A asks for ["general"] again. *)
Lemma createRoom_spec_witness :
  let st := two_in_general sample_dirname in
  ((createRoom sample_dirname "B" "random" st).2
   = [socket_emit "B" (RoomCreated "random");
      Emit (sockets st) (RoomList [JStr "general"; JStr "random"])]
   ∧ JsMap.get (JStr "random")
       (roomMessages (createRoom sample_dirname "B" "random" st).1) = Some []
   ∧ files (disk (createRoom sample_dirname "B" "random" st).1)
       !! ROOMS_FILE sample_dirname
     = Some [JStr "general"; JStr "random"])
  ∧ createRoom sample_dirname "A" "general" st
    = (st, [socket_emit "A" (Error "Room already exists")]).
Proof.
  intros st.
  destruct (createRoom_spec sample_dirname st "B" "random") as [Hfresh _].
  destruct (createRoom_spec sample_dirname st "A" "general") as [_ Htaken].
  split.
  - destruct Hfresh as (Hout & _ & _ & Hlog & Hfile & _); [compute_done|].
    split; [exact Hout|]. split; [exact Hlog|]. apply Hfile. reflexivity.
  - apply Htaken. compute_done.
Defined.

(** A asks for a room that does not exist, and joins ["general"] a
    second time. *)
Lemma joinRoom_spec_witness :
  let st := two_in_general sample_dirname in
  joinRoom "A" "nowhere" st
  = (st, [socket_emit "A" (Error "Room does not exist")])
  ∧ received "A" (joinRoom "A" "general" st).2
    = [RoomJoined "general"; PreviousMessages []; UserJoined "A"].
Proof.
  intros st.
  destruct (joinRoom_spec sample_dirname st "A" "nowhere") as [Habsent _].
  destruct (joinRoom_spec sample_dirname st "A" "general") as [_ Hpresent].
  split.
  - apply Habsent. compute_done.
  - destruct Hpresent as (_ & _ & Hrec & _); [compute_done|]. exact Hrec.
Defined.

(** B, a member of ["general"], gets alice's message. *)
Lemma sendMessage_broadcast_witness :
  ∃ messageData,
    received "B"
      (sendMessage sample_dirname
         (Payload (Some "general") (Some "hi") (Some "alice")) "10:00:00 AM"
         (two_in_general sample_dirname)).2
    = [Message messageData]
    ∧ user messageData = "alice" ∧ text messageData = "hi"
    ∧ time messageData ≠ "".
Proof.
  destruct (sendMessage_broadcast sample_dirname
              (two_in_general sample_dirname)
              "general" "hi" "alice" "10:00:00 AM" "B")
    as (messageData & Hrec & _ & Hu & Ht & Hne & _).
  - apply two_in_general_reachable.
  - discriminate.
  - discriminate.
  - discriminate.
  - discriminate.
  - compute_done.
  - exists messageData. by repeat split.
Defined.

(** C4 on the code: A and B are both in ["general"] and A disconnects.
    The room keeps the member B, so the guard [users.size === 0] is false
    and no [userLeft] is emitted: B receives the room list and nothing
    else.  When A is the only member, [userLeft] is emitted, to a
    socket.io room that A has already left: it reaches no session. *)
Theorem disconnect_userLeft_not_delivered :
  (let res := disconnect "A" (two_in_general sample_dirname) in
   members res.1 "general" = {["B"]}
   ∧ res.2 = [Emit {["B"]} (RoomList [JStr "general"])]
   ∧ filter is_userLeft (received "B" res.2) = [])
  ∧ (let alone :=
       (run sample_dirname
          [("A", Connect); ("B", Connect); ("A", CreateRoom "general")]
          (boot sample_dirname (fresh_disk sample_dirname))).1 in
     (disconnect "A" alone).2
     = [Emit ∅ (UserLeft "A"); Emit {["B"]} (RoomList [JStr "general"])]).
Proof. split; vm_compute; done. Qed.

(** The joiner is notified too: B joins ["general"] and receives the
    [userJoined] that carries its own id. *)
Lemma joinRoom_joiner_receives_userJoined :
  let st :=
    (run sample_dirname
       [("A", Connect); ("B", Connect); ("A", CreateRoom "general")]
       (boot sample_dirname (fresh_disk sample_dirname))).1 in
  JStr "general" ∈ JsMap.keys (rooms st)
  ∧ filter is_userJoined (received "B" (joinRoom "B" "general" st).2)
    = [UserJoined "B"].
Proof. split; [compute_done|]. vm_compute. done. Qed.

(** C joins ["general"], where A and B are; A and C itself receive
    [userJoined] for C. *)
Lemma joinRoom_userJoined_witness :
  let st := (connection "C" (two_in_general sample_dirname)).1 in
  let res := joinRoom "C" "general" st in
  filter is_userJoined (received "A" res.2) = [UserJoined "C"]
  ∧ filter is_userJoined (received "C" res.2) = [UserJoined "C"].
Proof.
  intros st res.
  destruct (joinRoom_userJoined sample_dirname st "C" "general")
    as (_ & Hin & _).
  - apply (reachable_step sample_dirname "C" Connect);
      [apply two_in_general_reachable | compute_done].
  - compute_done.
  - compute_done.
  - split; apply Hin; compute_done.
Defined.

(** A payload with an empty message text is dropped. *)
Lemma sendMessage_invalid_dropped_witness :
  sendMessage sample_dirname
    (Payload (Some "general") (Some "") (Some "alice")) "10:00:00 AM"
    (two_in_general sample_dirname)
  = (two_in_general sample_dirname, []).
Proof.
  apply sendMessage_invalid_dropped. right. left. right. reflexivity.
Defined.

(** The rooms ["a"] and ["./a"] share the message file
    [messages/a.json].  Both are saved without error, the second over
    the first, and after the restart ["a"] has lost its message. *)
Lemma save_restart_shared_file :
  let st :=
    (run sample_dirname
       [("A", Connect); ("A", CreateRoom "a"); ("A", CreateRoom "./a");
        ("A", SendMessage (Payload (Some "a") (Some "hi") (Some "alice"))
                "10:00:00 AM")]
       (boot sample_dirname (fresh_disk sample_dirname))).1 in
  let st' := restart sample_dirname (saveAll sample_dirname st) in
  messagesFile sample_dirname (JStr "a")
  = messagesFile sample_dirname (JStr "./a")
  ∧ JsMap.keys (rooms st) = [JStr "a"; JStr "./a"]
  ∧ JsMap.get (JStr "a") (roomMessages st)
    = Some [JObj (MessageData "alice" "hi" "10:00:00 AM")]
  ∧ JsMap.get (JStr "a") (roomMessages st') = Some []
  ∧ JsMap.get (JStr "a") (roomMessages st')
    ≠ JsMap.get (JStr "a") (roomMessages st).
Proof. repeat split; vm_compute; done. Qed.

(** ["general"] with one message is saved and found again after the
    restart. *)
Lemma save_restart_roundtrip_witness :
  let st :=
    (sendMessage sample_dirname
       (Payload (Some "general") (Some "hi") (Some "alice")) "10:00:00 AM"
       (two_in_general sample_dirname)).1 in
  let st' := restart sample_dirname (saveAll sample_dirname st) in
  rooms st' = [(JStr "general", ∅)]
  ∧ roomMessages st'
    = [(JStr "general", [JObj (MessageData "alice" "hi" "10:00:00 AM")])].
Proof.
  intros st st'.
  destruct (save_restart_roundtrip sample_dirname st) as (Hr & Hm & _).
  - compute_done.
  - compute_done.
  - reflexivity.
  - split; [exact Hr | exact Hm].
Defined.

(** After A has gone, B writes and C arrives and joins; A is in no
    room. *)
Lemma disconnect_removes_session_witness :
  "A" ∉ members
          (run sample_dirname
             [("B", SendMessage
                      (Payload (Some "general") (Some "bye") (Some "bob"))
                      "10:05:00 AM");
              ("C", Connect); ("C", JoinRoom "general")]
             (disconnect "A" (two_in_general sample_dirname)).1).1
          "general".
Proof.
  destruct (disconnect_removes_session sample_dirname
              (two_in_general sample_dirname) "A"
              [("B", SendMessage
                       (Payload (Some "general") (Some "bye") (Some "bob"))
                       "10:05:00 AM");
               ("C", Connect); ("C", JoinRoom "general")])
    as (_ & _ & _ & _ & _ & Hgone).
  - repeat constructor; discriminate.
  - apply Hgone.
Defined.

(** For the room name ["x/y"] the message file would lie in the
    directory [messages/x], which does not exist; the write throws, the
    error is caught, and the message is kept in memory only. *)
Lemma sendMessage_unknown_room_not_persisted :
  let st :=
    (connection "A" (boot sample_dirname (fresh_disk sample_dirname))).1 in
  let res :=
    sendMessage sample_dirname
      (Payload (Some "x/y") (Some "hi") (Some "alice")) "10:00:00 AM" st in
  JStr "x/y" ∉ JsMap.keys (rooms st)
  ∧ JsMap.get (JStr "x/y") (roomMessages res.1)
    = Some [JObj (MessageData "alice" "hi" "10:00:00 AM")]
  ∧ files (disk res.1) !! messagesFile sample_dirname (JStr "x/y") = None
  ∧ disk res.1 = disk st.
Proof. repeat split; [compute_done|vm_compute; done..]. Qed.

(** A message for ["lobby"], which nobody created, is logged and
    written to [messages/lobby.json], and the sender receives nothing. *)
Lemma sendMessage_unknown_room_witness :
  let st :=
    (connection "A" (boot sample_dirname (fresh_disk sample_dirname))).1 in
  let res :=
    sendMessage sample_dirname
      (Payload (Some "lobby") (Some "hi") (Some "alice")) "10:00:00 AM" st in
  JsMap.get (JStr "lobby") (roomMessages res.1)
  = Some [JObj (MessageData "alice" "hi" "10:00:00 AM")]
  ∧ files (disk res.1) !! messagesFile sample_dirname (JStr "lobby")
    = Some [JObj (MessageData "alice" "hi" "10:00:00 AM")]
  ∧ JsMap.keys (rooms res.1) = []
  ∧ received "A" res.2 = [].
Proof.
  intros st res.
  destruct (sendMessage_unknown_room sample_dirname st
              "lobby" "hi" "alice" "10:00:00 AM")
    as (Hlog & Hfile & _ & Hkeys & _ & _ & Hnone).
  - apply (reachable_step sample_dirname "A" Connect);
      [apply reachable_boot | compute_done].
  - discriminate.
  - discriminate.
  - discriminate.
  - compute_done.
  - split; [exact Hlog|]. split; [apply Hfile; reflexivity|].
    split; [exact Hkeys|]. apply Hnone. discriminate.
Defined.

(** * Worked examples for the further properties *)

(** A and B are connected; A has created ["general"]. *)
Lemma general_created_reachable :
  reachable sample_dirname
    (run sample_dirname
       [("A", Connect); ("B", Connect); ("A", CreateRoom "general")]
       (boot sample_dirname (fresh_disk sample_dirname))).1.
Proof. apply reachable_run; [apply reachable_boot|]. compute_done. Qed.

(** The members of ["general"] are connected. *)
Lemma members_are_connected_witness :
  members (two_in_general sample_dirname) "general"
  ⊆ sockets (two_in_general sample_dirname).
Proof.
  apply (members_are_connected sample_dirname).
  apply two_in_general_reachable.
Defined.

(** A message, a departure and a new room later, the log of ["general"]
    still starts with what it held. *)
Lemma log_append_only_witness :
  room_log (two_in_general sample_dirname) "general"
  `prefix_of`
  room_log
    (run sample_dirname
       [("A", SendMessage (Payload (Some "general") (Some "hi") (Some "alice"))
                "10:00:00 AM");
        ("A", Disconnect); ("B", CreateRoom "random")]
       (two_in_general sample_dirname)).1 "general".
Proof. apply log_append_only. compute_done. Defined.

(** A message for ["lobby"] before the room exists is gone from memory
    once A creates the room, and still in [messages/lobby.json]. *)
Lemma createRoom_resets_log_witness :
  let st :=
    (connection "A" (boot sample_dirname (fresh_disk sample_dirname))).1 in
  let sent :=
    (sendMessage sample_dirname
       (Payload (Some "lobby") (Some "hi") (Some "alice")) "10:00:00 AM" st).1 in
  let created := (createRoom sample_dirname "A" "lobby" sent).1 in
  room_log sent "lobby" = [JObj (MessageData "alice" "hi" "10:00:00 AM")]
  ∧ room_log created "lobby" = []
  ∧ files (disk created) !! messagesFile sample_dirname (JStr "lobby")
    = Some [JObj (MessageData "alice" "hi" "10:00:00 AM")].
Proof.
  intros st sent created.
  destruct (createRoom_resets_log sample_dirname st
              "lobby" "hi" "alice" "10:00:00 AM" "A")
    as (Hsent & Hcreated & _ & Hfile).
  - discriminate.
  - discriminate.
  - discriminate.
  - compute_done.
  - split; [exact Hsent|]. split; [exact Hcreated|].
    apply Hfile; [vm_compute; reflexivity|]. vm_compute. discriminate.
Defined.

(** B joins ["general"] and then ["random"], and still gets what is said
    in ["general"]. *)
Lemma member_of_two_rooms_witness :
  let st :=
    (run sample_dirname
       [("A", Connect); ("B", Connect);
        ("A", CreateRoom "general"); ("A", CreateRoom "random")]
       (boot sample_dirname (fresh_disk sample_dirname))).1 in
  let joined := (joinRoom "B" "random" (joinRoom "B" "general" st).1).1 in
  "B" ∈ members joined "general" ∧ "B" ∈ members joined "random"
  ∧ received "B"
      (sendMessage sample_dirname
         (Payload (Some "general") (Some "hi") (Some "alice")) "10:00:00 AM"
         joined).2
    = [Message (MessageData "alice" "hi" "10:00:00 AM")].
Proof.
  intros st joined.
  apply (member_of_two_rooms sample_dirname st "B" "general" "random").
  - apply reachable_run; [apply reachable_boot|]. compute_done.
  - compute_done.
  - compute_done.
  - compute_done.
  - discriminate.
  - discriminate.
  - discriminate.
Defined.

(** After alice's message the file of ["general"] holds the room's
    log. *)
Lemma sendMessage_saves_whole_log_witness :
  let st' :=
    (sendMessage sample_dirname
       (Payload (Some "general") (Some "hi") (Some "alice")) "10:00:00 AM"
       (two_in_general sample_dirname)).1 in
  room_log st' "general" = [JObj (MessageData "alice" "hi" "10:00:00 AM")]
  ∧ files (disk st') !! messagesFile sample_dirname (JStr "general")
    = Some (room_log st' "general").
Proof.
  intros st'.
  destruct (sendMessage_saves_whole_log sample_dirname
              (two_in_general sample_dirname)
              "general" "hi" "alice" "10:00:00 AM")
    as (Hlog & Hfile & _).
  - discriminate.
  - discriminate.
  - discriminate.
  - vm_compute. reflexivity.
  - split; [exact Hlog | exact Hfile].
Defined.

(** The room list sent when B creates ["random"] names both rooms. *)
Lemma roomList_is_current_witness :
  [JStr "general"; JStr "random"]
  = JsMap.keys
      (rooms (step sample_dirname "B" (CreateRoom "random")
                (two_in_general sample_dirname)).1).
Proof.
  apply (roomList_is_current sample_dirname
           (two_in_general sample_dirname) "B" (CreateRoom "random")
           (Emit {["A"; "B"]} (RoomList [JStr "general"; JStr "random"])));
    [|reflexivity].
  vm_compute. apply list_elem_of_further, list_elem_of_here.
Defined.

(** A fresh installation has no rooms file: the server starts empty. *)
Lemma boot_without_rooms_file_witness :
  boot sample_dirname (fresh_disk sample_dirname)
  = MkServer [] [] (fresh_disk sample_dirname) ∅ ∅.
Proof. apply boot_without_rooms_file. left. reflexivity. Defined.

(** Two rooms on disk, one with a message file. *)
Lemma boot_reads_disk_witness :
  let fs :=
    MkFS (dirs (fresh_disk sample_dirname))
      {[ ROOMS_FILE sample_dirname := [JStr "general"; JStr "random"];
         messagesFile sample_dirname (JStr "general")
           := [JObj (MessageData "alice" "hi" "10:00:00 AM")] ]} in
  rooms (boot sample_dirname fs) = [(JStr "general", ∅); (JStr "random", ∅)]
  ∧ roomMessages (boot sample_dirname fs)
    = [(JStr "general", [JObj (MessageData "alice" "hi" "10:00:00 AM")]);
       (JStr "random", [])].
Proof.
  intros fs.
  destruct (boot_reads_disk sample_dirname fs
              [JStr "general"; JStr "random"]) as (Hr & Hm & _).
  - reflexivity.
  - compute_done.
  - compute_done.
  - split; [exact Hr | exact Hm].
Defined.

(** A directory named [random.json] stops the load after ["general"] and
    ["random"]; ["lobby"] is not loaded. *)
Lemma boot_stops_at_directory_witness :
  let fs :=
    MkFS (dirs (fresh_disk sample_dirname)
          ∪ {[ messagesFile sample_dirname (JStr "random") ]})
      {[ ROOMS_FILE sample_dirname
           := [JStr "general"; JStr "random"; JStr "lobby"] ]} in
  rooms (boot sample_dirname fs) = [(JStr "general", ∅); (JStr "random", ∅)]
  ∧ roomMessages (boot sample_dirname fs) = [(JStr "general", [])].
Proof.
  intros fs.
  destruct (boot_stops_at_directory sample_dirname fs
              [JStr "general"] [JStr "lobby"] (JStr "random")) as (Hr & Hm).
  - reflexivity.
  - compute_done.
  - compute_done.
  - compute_done.
  - split; [exact Hr | exact Hm].
Defined.

(** The first start in an empty script directory. *)
Lemma start_creates_storage_witness :
  ∃ fs', start sample_dirname (MkFS {[ sample_dirname ]} ∅)
         = Some (boot sample_dirname fs')
         ∧ dirs fs'
           = {[ sample_dirname ]} ∪ {[ STORAGE_DIR sample_dirname ]}
             ∪ {[ MESSAGES_DIR sample_dirname ]}.
Proof.
  destruct (start_creates_storage sample_dirname
              (MkFS {[ sample_dirname ]} ∅)) as (fs' & Hstart & Hdirs & _).
  - compute_done.
  - reflexivity.
  - reflexivity.
  - exists fs'. split; [exact Hstart | exact Hdirs].
Defined.

(** A regular file called [storage] in the script directory. *)
Lemma start_fails_on_storage_file_witness :
  start sample_dirname
    (MkFS {[ sample_dirname ]} {[ STORAGE_DIR sample_dirname := [] ]})
  = None.
Proof.
  apply start_fails_on_storage_file.
  - compute_done.
  - compute_done.
  - reflexivity.
Defined.

(** alice's message in ["general"] is there after a restart. *)
Lemma message_survives_restart_witness :
  let st' :=
    (sendMessage sample_dirname
       (Payload (Some "general") (Some "hi") (Some "alice")) "10:00:00 AM"
       (two_in_general sample_dirname)).1 in
  room_log (restart sample_dirname st') "general"
  = [JObj (MessageData "alice" "hi" "10:00:00 AM")].
Proof.
  intros st'.
  destruct (message_survives_restart sample_dirname
              (two_in_general sample_dirname)
              "general" "hi" "alice" "10:00:00 AM" [JStr "general"])
    as (_ & Hlog).
  - discriminate.
  - discriminate.
  - discriminate.
  - vm_compute. reflexivity.
  - compute_done.
  - compute_done.
  - compute_done.
  - reflexivity.
  - vm_compute. reflexivity.
  - exact Hlog.
Defined.

(** A leaves ["general"], where B stays: B is not told. *)
Lemma userLeft_reaches_nobody_witness :
  filter is_userLeft
    (received "B" (disconnect "A" (two_in_general sample_dirname)).2)
  = [].
Proof.
  apply (userLeft_reaches_nobody sample_dirname).
  - apply two_in_general_reachable.
  - compute_done.
Defined.

(** alice, in ["general"], sends ["hi"]. *)
Lemma client_message_accepted_witness :
  let c := Chat.State "alice" "" "" "hi" [] [] "general" "" ∅ in
  room_log
    (sendMessage sample_dirname
       (Payload (Some "general") (Some "hi") (Some "alice")) "10:00:00 AM"
       (two_in_general sample_dirname)).1 "general"
  = [JObj (MessageData "alice" "hi" "10:00:00 AM")]
  ∧ Chat.message (Chat.sendMessage c).1 = "".
Proof.
  intros c.
  apply (client_message_accepted sample_dirname c).
  vm_compute. apply list_elem_of_here.
Defined.

(** B joins ["general"]; A then says ["hi"]; B's component shows it. *)
Lemma client_view_is_log_witness :
  let st :=
    (run sample_dirname
       [("A", Connect); ("B", Connect); ("A", CreateRoom "general")]
       (boot sample_dirname (fresh_disk sample_dirname))).1 in
  let res :=
    run sample_dirname
      (("B", JoinRoom "general")
       :: sends "general" [("A", "hi", "alice", "10:00:00 AM")]) st in
  Chat.messages (Chat.deliver (received "B" res.2) (Chat.init ∅))
  = [JObj (MessageData "alice" "hi" "10:00:00 AM")].
Proof.
  intros st res.
  assert (room_log res.1 "general"
          = [JObj (MessageData "alice" "hi" "10:00:00 AM")]) as <-
    by (vm_compute; reflexivity).
  apply (client_view_is_log sample_dirname (Chat.init ∅) st "B" "general").
  - apply general_created_reachable.
  - compute_done.
  - compute_done.
  - discriminate.
  - repeat constructor; discriminate.
Defined.

(** bob presses Create Room for ["general"], which A has created. *)
Lemma client_creates_existing_room_witness :
  let c := Chat.State "bob" "" "general" "" [] [] "" "" ∅ in
  let st :=
    (run sample_dirname
       [("A", Connect); ("B", Connect); ("A", CreateRoom "general")]
       (boot sample_dirname (fresh_disk sample_dirname))).1 in
  let clicked := Chat.click Chat.createRoom c in
  let res := run sample_dirname (requests_of "B" "10:00:00 AM" clicked.2) st in
  let shown := Chat.deliver (received "B" res.2) clicked.1 in
  clicked.2 = [Chat.EmitCreateRoom "general"; Chat.EmitJoinRoom "general"]
  ∧ "B" ∈ members res.1 "general"
  ∧ Chat.error shown = "Room already exists".
Proof.
  intros c st clicked res shown.
  destruct (client_creates_existing_room sample_dirname c st "B" "10:00:00 AM")
    as (Hout & Hin & _ & Herr & _).
  - apply general_created_reachable.
  - compute_done.
  - discriminate.
  - discriminate.
  - discriminate.
  - compute_done.
  - split; [exact Hout|]. split; [exact Hin | exact Herr].
Defined.

(** C, connected but in no room, writes to ["general"]: A gets the
    message, C does not. *)
Lemma sendMessage_from_outside_witness :
  let st := (connection "C" (two_in_general sample_dirname)).1 in
  let res :=
    step sample_dirname "C"
      (SendMessage (Payload (Some "general") (Some "hi") (Some "carol"))
         "10:00:00 AM") st in
  received "A" res.2 = [Message (MessageData "carol" "hi" "10:00:00 AM")]
  ∧ received "C" res.2 = [].
Proof.
  intros st res.
  destruct (sendMessage_from_outside sample_dirname st
              "C" "A" "general" "hi" "carol" "10:00:00 AM")
    as (HA & HC & _).
  - apply (reachable_step sample_dirname "C" Connect);
      [apply two_in_general_reachable | compute_done].
  - discriminate.
  - discriminate.
  - discriminate.
  - compute_done.
  - compute_done.
  - discriminate.
  - split; [exact HA | exact HC].
Defined.

(** C connects while A and B are in ["general"]. *)
Lemma connection_starts_roomless_witness :
  in_no_room "C" (connection "C" (two_in_general sample_dirname)).1
  ∧ (connection "C" (two_in_general sample_dirname)).2
    = [Emit {["C"]} (RoomList [JStr "general"])].
Proof.
  destruct (connection_starts_roomless sample_dirname
              (two_in_general sample_dirname) "C") as (Hno & Hout & _).
  - apply two_in_general_reachable.
  - compute_done.
  - split; [exact Hno | exact Hout].
Defined.

(** A directory bears the name of the rooms file: the server starts,
    A creates ["general"] and is told so, but the write of the list
    throws and is swallowed; the disk is as before, and a restart finds
    no room. *)
Lemma createRoom_not_persisted :
  let fs :=
    MkFS (dirs (fresh_disk sample_dirname) ∪ {[ ROOMS_FILE sample_dirname ]})
      ∅ in
  let st := (connection "A" (boot sample_dirname fs)).1 in
  let res := createRoom sample_dirname "A" "general" st in
  JStr "general" ∉ JsMap.keys (rooms st)
  ∧ res.2 = [Emit {["A"]} (RoomCreated "general");
             Emit {["A"]} (RoomList [JStr "general"])]
  ∧ JsMap.keys (rooms res.1) = [JStr "general"]
  ∧ disk res.1 = fs
  ∧ files (disk res.1) !! ROOMS_FILE sample_dirname = None
  ∧ rooms (restart sample_dirname res.1) = [].
Proof. repeat split; [compute_done|vm_compute; done..]. Qed.
